(** * Sonification engine of repo_art (src/repo_art/sonifier.py)

    A shallow embedding of [MusicGenerator] and the properties of its
    render.  Python floats are modelled by the real numbers of the
    Standard Library ([math.sin] is [sin], [math.pi] is [PI]); Python
    integers are [Z]; exceptions are values of an error monad.  Where a
    result of the code depends on the rounding of binary64 arithmetic
    (an integer obtained by truncating a product, an exact zero), the
    computation is also given on primitive binary64 floats, in the
    definitions whose names end in [_b64]. *)

From Stdlib Require Import Reals Lra Lia ZArith List Permutation Bool.
From Stdlib Require Import Floats.
Import ListNotations.

Set Warnings "-inexact-float".

Open Scope R_scope.

(** ** Exceptions and the error monad *)

Inductive exn : Type :=
| ValueError
| IndexError
| ZeroDivisionError
| OverflowError
| StructError.

Inductive result (A : Type) : Type :=
| Ok (a : A)
| Raise (e : exn).

Arguments Ok {A} a.
Arguments Raise {A} e.

Definition bind {A B : Type} (m : result A) (k : A -> result B) : result B :=
  match m with
  | Ok a => k a
  | Raise e => Raise e
  end.

Notation "x <- m ;; k" := (bind m (fun x => k))
  (at level 61, m at next level, right associativity).

(** ** Python primitives used by the module *)

Module Py.

(** [int(x)] on a float: truncation toward zero. *)
Definition int (x : R) : Z :=
  if Rle_dec 0 x then Zfloor x else (- Zfloor (- x))%Z.

(** [x / y]: true division, raising on a zero divisor. *)
Definition truediv (x y : R) : result R :=
  if Req_dec_T y 0 then Raise ZeroDivisionError else Ok (x / y).

(** Two-argument [min(a, b)] and [max(a, b)]: the first argument is kept
    unless the second is strictly smaller (resp. larger). *)
Definition min2 (a b : R) : R := if Rlt_dec b a then b else a.
Definition max2 (a b : R) : R := if Rlt_dec a b then b else a.

(** [x or d] on numbers: [d] replaces a zero. *)
Definition or_Z (x d : Z) : Z := if (x =? 0)%Z then d else x.
Definition or_R (x d : R) : R := if Req_dec_T x 0 then d else x.

(** [min(iterable)] and [max(iterable)]: [ValueError] on an empty one. *)
Definition min_Z (l : list Z) : result Z :=
  match l with
  | [] => Raise ValueError
  | x :: xs => Ok (fold_left Z.min xs x)
  end.

Definition max_Z (l : list Z) : result Z :=
  match l with
  | [] => Raise ValueError
  | x :: xs => Ok (fold_left Z.max xs x)
  end.

Definition max_R (l : list R) : result R :=
  match l with
  | [] => Raise ValueError
  | x :: xs => Ok (fold_left max2 xs x)
  end.

(** [[v] * n]: empty when [n <= 0]. *)
Definition replicate (v : R) (n : Z) : list R := repeat v (Z.to_nat n).

(** [range(n)]. *)
Definition range (n : Z) : list Z := map Z.of_nat (seq 0 (Z.to_nat n)).

(** Replace position [n] of a list. *)
Fixpoint set_nth (l : list R) (n : nat) (v : R) : list R :=
  match l, n with
  | [], _ => []
  | _ :: xs, O => v :: xs
  | x :: xs, S n' => x :: set_nth xs n' v
  end.

(** Index normalisation of [l[k]]: a negative index counts from the end,
    anything outside the list raises [IndexError]. *)
Definition index (l : list R) (k : Z) : result nat :=
  let len := Z.of_nat (length l) in
  let k' := if (k <? 0)%Z then (k + len)%Z else k in
  if ((0 <=? k') && (k' <? len))%Z%bool then Ok (Z.to_nat k')
  else Raise IndexError.

(** [l[k] += v]. *)
Definition iadd (l : list R) (k : Z) (v : R) : result (list R) :=
  n <- index l k ;;
  Ok (set_nth l n (nth n l 0 + v)).

End Py.

(** ** The same primitives on binary64 floats *)

Module B64.

(** [float(z)] for a Python integer below 2^63 in absolute value (exact
    below 2^53). *)
Definition of_Z (z : Z) : float :=
  if (z <? 0)%Z then PrimFloat.opp (PrimFloat.of_uint63 (Uint63.of_Z (- z)))
  else PrimFloat.of_uint63 (Uint63.of_Z z).

(** [int(x)] on a float: truncation toward zero, [OverflowError] on an
    infinity and [ValueError] on a NaN. *)
Definition int (x : float) : result Z :=
  match Prim2SF x with
  | S754_zero _ => Ok 0%Z
  | S754_finite s m e =>
    let v := if (0 <=? e)%Z then (Z.pos m * 2 ^ e)%Z
             else (Z.pos m / 2 ^ (- e))%Z in
    Ok (if s then (- v)%Z else v)
  | S754_infinity _ => Raise OverflowError
  | S754_nan => Raise ValueError
  end.

(** [x / y] on floats. *)
Definition truediv (x y : float) : result float :=
  if PrimFloat.eqb y 0%float then Raise ZeroDivisionError
  else Ok (PrimFloat.div x y).

(** Two-argument [min(a, b)]. *)
Definition min2 (a b : float) : float :=
  if PrimFloat.ltb b a then b else a.

(** The real number a finite float stands for. *)
Definition to_R (x : float) : R :=
  match Prim2SF x with
  | S754_finite s m e =>
    (if s then - IZR (Z.pos m) else IZR (Z.pos m)) * powerRZ 2 e
  | _ => 0
  end.

End B64.

(** ** Data model *)

(** One commit, as produced by the analyzer: the three keys the
    sonifier reads. *)
Record commit : Type := mkCommit {
  timestamp : Z;
  additions : Z;
  deletions : Z
}.

(** The fields of a [MusicGenerator]. *)
Record MusicGenerator : Type := mkGen {
  sample_rate : Z;
  duration_per_commit : R;
  base_frequency : R
}.

Definition default_generator : MusicGenerator := mkGen 44100 0.1 220.

(** ** [_adsr_envelope] *)

Definition attack_time (duration : R) : R := Py.min2 0.01 (duration * 0.1).
Definition decay_time (duration : R) : R := Py.min2 0.02 (duration * 0.2).
Definition release_time (duration : R) : R := Py.min2 0.05 (duration * 0.3).
Definition sustain_level : R := 0.7.

Definition _adsr_envelope (t duration : R) : result R :=
  let attack_time := attack_time duration in
  let decay_time := decay_time duration in
  let release_time := release_time duration in
  if Rlt_dec t attack_time then
    Py.truediv t attack_time
  else if Rlt_dec t (attack_time + decay_time) then
    progress <- Py.truediv (t - attack_time) decay_time ;;
    Ok (1.0 - (1.0 - sustain_level) * progress)
  else if Rlt_dec t (duration - release_time) then
    Ok sustain_level
  else
    progress <- Py.truediv (t - (duration - release_time)) release_time ;;
    Ok (sustain_level * (1.0 - progress)).

(** [_adsr_envelope] as the code computes it, on binary64 floats. *)
Definition _adsr_envelope_b64 (t duration : float) : result float :=
  (let attack_time := B64.min2 0.01 (duration * 0.1) in
  let decay_time := B64.min2 0.02 (duration * 0.2) in
  let release_time := B64.min2 0.05 (duration * 0.3) in
  let sustain_level := 0.7 in
  if t <? attack_time then
    B64.truediv t attack_time
  else if t <? attack_time + decay_time then
    progress <- B64.truediv (t - attack_time) decay_time ;;
    Ok (1.0 - (1.0 - sustain_level) * progress)
  else if t <? duration - release_time then
    Ok sustain_level
  else
    progress <- B64.truediv (t - (duration - release_time)) release_time ;;
    Ok (sustain_level * (1.0 - progress)))%float.

(** ** [_generate_sonification] *)

Section Render.

Variable self : MusicGenerator.

(** The scalars derived once per render, before the mixing loop. *)
Record scalars : Type := mkScalars {
  min_time : Z;
  time_range : Z;
  total_samples : Z;
  max_activity : Z
}.

Definition activity (c : commit) : Z := (additions c + deletions c)%Z.

Definition total_duration (commits : list commit) : R :=
  Py.min2 60.0 (IZR (Z.of_nat (length commits)) * duration_per_commit self).

Definition derive (commits : list commit) : result scalars :=
  let timestamps := map timestamp commits in
  min_time <- Py.min_Z timestamps ;;
  max_time <- Py.max_Z timestamps ;;
  let time_range := Py.or_Z (max_time - min_time) 1 in
  let total_samples := Py.int (total_duration commits * IZR (sample_rate self)) in
  m <- Py.max_Z (map activity commits) ;;
  let max_activity := Py.or_Z m 1 in
  Ok (mkScalars min_time time_range total_samples max_activity).

Variable sc : scalars.

Definition t_norm (c : commit) : result R :=
  Py.truediv (IZR (timestamp c - min_time sc)) (IZR (time_range sc)).

Definition start_sample (c : commit) : result Z :=
  t <- t_norm c ;;
  Ok (Py.int (t * IZR (total_samples sc))).

Definition frequency_multiplier (c : commit) : result R :=
  if (activity c >? 0)%Z then
    add_ratio <- Py.truediv (IZR (additions c)) (IZR (activity c)) ;;
    Ok (0.5 + add_ratio * 1.5)
  else
    Ok 1.0.

Definition volume (c : commit) : result R :=
  r <- Py.truediv (IZR (activity c)) (IZR (max_activity sc)) ;;
  Ok (Py.min2 1.0 (r * 0.5)).

Definition note_samples : Z :=
  Py.int (duration_per_commit self * IZR (sample_rate self)).

(** The value one iteration of the inner loop adds to the buffer. *)
Definition note_value (frequency vol : R) (i : Z) : result R :=
  t <- Py.truediv (IZR i) (IZR (sample_rate self)) ;;
  envelope <- _adsr_envelope t (duration_per_commit self) ;;
  let sample := 0 in
  let sample := sample + sin (2 * PI * frequency * t) in
  let sample := sample + 0.3 * sin (2 * PI * frequency * 2 * t) in
  let sample := sample + 0.1 * sin (2 * PI * frequency * 3 * t) in
  let sample := sample * (envelope * vol) in
  Ok (sample * 0.3).

(** The inner loop [for i in range(note_samples)], with its [break]. *)
Fixpoint note_loop (start : Z) (frequency vol : R) (idxs : list Z)
  (audio : list R) : result (list R) :=
  match idxs with
  | [] => Ok audio
  | i :: rest =>
    if (start + i >=? total_samples sc)%Z then Ok audio
    else
      v <- note_value frequency vol i ;;
      audio' <- Py.iadd audio (start + i) v ;;
      note_loop start frequency vol rest audio'
  end.

(** The body of [for commit in commits]. *)
Definition mix_commit (audio : list R) (c : commit) : result (list R) :=
  start <- start_sample c ;;
  fm <- frequency_multiplier c ;;
  let frequency := base_frequency self * fm in
  vol <- volume c ;;
  note_loop start frequency vol (Py.range note_samples) audio.

Fixpoint mix_commits (commits : list commit) (audio : list R)
  : result (list R) :=
  match commits with
  | [] => Ok audio
  | c :: rest =>
    audio' <- mix_commit audio c ;;
    mix_commits rest audio'
  end.

End Render.

(** A list comprehension whose element expression may raise. *)
Fixpoint comprehension {A B : Type} (f : A -> result B) (l : list A)
  : result (list B) :=
  match l with
  | [] => Ok []
  | x :: xs =>
    y <- f x ;;
    ys <- comprehension f xs ;;
    Ok (y :: ys)
  end.

(** The normalisation pass that ends the render. *)
Definition normalize (audio : list R) : result (list R) :=
  m <- Py.max_R (map Rabs audio) ;;
  let max_val := Py.or_R m 1.0 in
  if Rlt_dec 1.0 max_val then
    comprehension (fun s => Py.truediv s max_val) audio
  else Ok audio.

Definition _generate_sonification (self : MusicGenerator)
  (commits : list commit) : result (list R) :=
  match commits with
  | [] => Ok []
  | _ :: _ =>
    sc <- derive self commits ;;
    let audio := Py.replicate 0.0 (total_samples sc) in
    audio <- mix_commits self sc commits audio ;;
    normalize audio
  end.

(** [total_samples] as the code computes it:
    [int(min(60.0, len(commits) * duration_per_commit) * sample_rate)]
    with both products rounded to binary64 before the truncation. *)
Definition total_samples_b64 (sample_rate : Z) (duration_per_commit : float)
  (n : nat) : result Z :=
  let total_duration :=
    B64.min2 60.0%float
      (PrimFloat.mul (B64.of_Z (Z.of_nat n)) duration_per_commit) in
  B64.int (PrimFloat.mul total_duration (B64.of_Z sample_rate)).


(** The generator whose fields are the given binary64 values. *)
Definition generator_of (sample_rate : Z)
  (duration_per_commit base_frequency : float) : MusicGenerator :=
  mkGen sample_rate (B64.to_R duration_per_commit)
    (B64.to_R base_frequency).

(** [_generate_sonification] with the buffer length computed in
    binary64, as the code does; the synthesis of the samples stays in
    exact arithmetic. *)
Definition _generate_sonification_b64 (sample_rate : Z)
  (duration_per_commit base_frequency : float) (commits : list commit)
  : result (list R) :=
  let self := generator_of sample_rate duration_per_commit base_frequency in
  match commits with
  | [] => Ok []
  | _ :: _ =>
    sc <- derive self commits ;;
    total_samples <-
      total_samples_b64 sample_rate duration_per_commit (length commits) ;;
    let sc := mkScalars (min_time sc) (time_range sc) total_samples
                (max_activity sc) in
    audio <- mix_commits self sc commits (Py.replicate 0.0 total_samples) ;;
    normalize audio
  end.

(** The buffer before the normalisation pass. *)
Definition mixed (self : MusicGenerator) (commits : list commit)
  : result (list R) :=
  sc <- derive self commits ;;
  mix_commits self sc commits (Py.replicate 0.0 (total_samples sc)).

(** ** [_write_wav], [_write_silence] and [generate] *)

(** Clamp and scale one sample to the 16-bit range. *)
Definition int_sample (sample : R) : Z :=
  let sample := Py.max2 (-1.0) (Py.min2 1.0 sample) in
  Py.int (sample * 32767).

(** [struct.pack('<h', x)]: the two bytes, least significant first. *)
Definition pack_h (x : Z) : result (Z * Z) :=
  if ((-32768 <=? x) && (x <=? 32767))%Z%bool then
    Ok ((x mod 256)%Z, ((x / 256) mod 256)%Z)
  else Raise StructError.

(** The frames [_write_wav] writes, in order. *)
Definition _write_wav (samples : list R) : result (list (Z * Z)) :=
  comprehension (fun sample => pack_h (int_sample sample)) samples.

(** The samples [_write_silence] hands to [_write_wav]. *)
Definition silence (self : MusicGenerator) (duration : R) : list R :=
  Py.replicate 0.0 (Py.int (duration * IZR (sample_rate self))).

(** The samples [generate] hands to the encoder. *)
Definition generate_samples (self : MusicGenerator) (commits : list commit)
  : result (list R) :=
  match commits with
  | [] => Ok (silence self 1.0)
  | _ :: _ => _generate_sonification self commits
  end.

Definition generate (self : MusicGenerator) (commits : list commit)
  : result (list (Z * Z)) :=
  samples <- generate_samples self commits ;;
  _write_wav samples.

(** ** Colour helpers of [ArtGenerator] (src/repo_art/visualizer.py) *)

(** An RGB triple of Python integers. *)
Definition rgb : Type := (Z * Z * Z)%type.

(** [_blend_color]: each channel is [int(c1 * alpha + c2 * (1 - alpha))]. *)
Definition _blend_color (color1 color2 : rgb) (alpha : R) : rgb :=
  let '(r1, g1, b1) := color1 in
  let '(r2, g2, b2) := color2 in
  (Py.int (IZR r1 * alpha + IZR r2 * (1 - alpha)),
   Py.int (IZR g1 * alpha + IZR g2 * (1 - alpha)),
   Py.int (IZR b1 * alpha + IZR b2 * (1 - alpha))).

(** [_intensity_to_color]. *)
Definition _intensity_to_color (intensity : R) : rgb :=
  if Rlt_dec intensity 0.3 then
    (0%Z, Py.int (intensity * 255 / 0.3), 128%Z)
  else if Rlt_dec intensity 0.6 then
    (Py.int ((intensity - 0.3) * 255 / 0.3), 255%Z, 128%Z)
  else
    (255%Z, 255%Z, Py.int (255 * (1 - (intensity - 0.6) / 0.4))).

Definition base_colors : list rgb :=
  [(100, 150, 255); (150, 100, 255); (255, 100, 150)]%Z.

(** [_get_wave_color]: the base colour at [wave_index % 3], every
    channel scaled by [0.3 + intensity * 0.7]. *)
Definition _get_wave_color (intensity : R) (wave_index : Z) : rgb :=
  let '(r, g, b) :=
    nth (Z.to_nat (wave_index mod Z.of_nat (length base_colors)))
      base_colors (0, 0, 0)%Z in
  (Py.int (IZR r * (0.3 + intensity * 0.7)),
   Py.int (IZR g * (0.3 + intensity * 0.7)),
   Py.int (IZR b * (0.3 + intensity * 0.7))).

(** A channel value that fits one byte. *)
Definition channel (x : Z) : Prop := (0 <= x <= 255)%Z.

Definition valid_rgb (c : rgb) : Prop :=
  let '(r, g, b) := c in channel r /\ channel g /\ channel b.

(** ** Definitions used to state the properties *)

(** The four-phase function of the specification, as a value. *)
Definition envelope_spec (t d : R) : R :=
  let a := Rmin 0.01 (d * 0.1) in
  let dc := Rmin 0.02 (d * 0.2) in
  let r := Rmin 0.05 (d * 0.3) in
  if Rlt_dec t a then t / a
  else if Rlt_dec t (a + dc) then 1 - (1 - 0.7) * ((t - a) / dc)
  else if Rlt_dec t (d - r) then 0.7
  else 0.7 * (1 - (t - (d - r)) / r).

(** The value returned by the envelope, read as a function of [t]
    (the default is never used when [d > 0]). *)
Definition envelope_value (d t : R) : R :=
  match _adsr_envelope t d with
  | Ok v => v
  | Raise _ => 0
  end.

(** [add_from g j audio] adds [g j], [g (j+1)], ... to the successive
    samples of [audio]: the effect of the mixing loop, stated on the
    whole buffer. *)
Fixpoint add_from (g : Z -> R) (j : Z) (audio : list R) : list R :=
  match audio with
  | [] => []
  | x :: xs => (x + g j) :: add_from g (j + 1) xs
  end.

(** The value of a computation that does not raise. *)
Definition value {A : Type} (d : A) (m : result A) : A :=
  match m with
  | Ok a => a
  | Raise _ => d
  end.

(** What commit [c] adds to buffer index [j] during the render: the
    value of its note at [j - start_sample] inside the note's window,
    nothing outside. *)
Definition contribution (self : MusicGenerator) (sc : scalars) (c : commit)
  (j : Z) : R :=
  let start := value 0%Z (start_sample sc c) in
  let frequency := base_frequency self * value 0 (frequency_multiplier c) in
  let vol := value 0 (volume sc c) in
  if ((start <=? j) && (j <? start + note_samples self))%Z%bool
  then value 0 (note_value self frequency vol (j - start))
  else 0.

(** The sum of the contributions of a list of commits at index [j]. *)
Definition total_contribution (self : MusicGenerator) (sc : scalars)
  (commits : list commit) (j : Z) : R :=
  fold_right (fun c acc => contribution self sc c j + acc) 0 commits.

(** The scalars never lead to a division by zero, and a commit of the
    rendered list lies inside the time span. *)
Definition sound (sc : scalars) : Prop :=
  (0 < time_range sc)%Z /\ max_activity sc <> 0%Z.

Definition placed (sc : scalars) (c : commit) : Prop :=
  (0 <= timestamp c - min_time sc <= time_range sc)%Z.

Definition in_unit (s : R) : Prop := -1 <= s <= 1.

(** The buffer length the render allocates for a list of commits. *)
Definition buffer_length (self : MusicGenerator)
  (commits : list commit) : Z :=
  Py.int (total_duration self commits * IZR (sample_rate self)).

(** The length the specification gives: Python's [round], which rounds
    to the nearest integer and a tie to the even neighbour. *)
Definition round_half_even (x : R) : Z :=
  let f := Zfloor x in
  let r := x - IZR f in
  if Rlt_dec r (1 / 2) then f
  else if Rlt_dec (1 / 2) r then (f + 1)%Z
  else if Z.even f then f else (f + 1)%Z.

Definition spec_buffer_length (self : MusicGenerator)
  (commits : list commit) : Z :=
  round_half_even
    (Rmin 60.0 (IZR (Z.of_nat (length commits)) * duration_per_commit self)
     * IZR (sample_rate self)).


(** The buffer indices the inner loop writes, in order: the loop of
    [note_loop] with its [break], keeping only the targets. *)
Fixpoint written (sc : scalars) (start : Z) (idxs : list Z) : list Z :=
  match idxs with
  | [] => []
  | i :: rest =>
    if (start + i >=? total_samples sc)%Z then []
    else (start + i)%Z :: written sc start rest
  end.

(** The peak absolute amplitude of a buffer. *)
Definition peak (buf : list R) : R := value 0 (Py.max_R (map Rabs buf)).

(** A commit moved in time by [k] seconds. *)
Definition delay (k : Z) (c : commit) : commit :=
  mkCommit (timestamp c + k) (additions c) (deletions c).

(** A commit whose line counts are multiplied by [k]. *)
Definition amplify (k : Z) (c : commit) : commit :=
  mkCommit (timestamp c) (k * additions c) (k * deletions c).

(** * Properties *)

(** ** Proof automation *)

Ltac decide_R :=
  repeat match goal with
  | |- context [Rlt_dec ?a ?b] =>
      destruct (Rlt_dec a b); try lra
  | |- context [Rle_dec ?a ?b] =>
      destruct (Rle_dec a b); try lra
  | |- context [Req_dec_T ?a ?b] =>
      destruct (Req_dec_T a b); try lra
  end.

Ltac decide_Z :=
  repeat match goal with
  | |- context [(?a <=? ?b)%Z] => destruct (Z.leb_spec a b)
  | |- context [(?a <? ?b)%Z] => destruct (Z.ltb_spec a b)
  | |- context [(?a =? ?b)%Z] => destruct (Z.eqb_spec a b)
  end;
  cbn [andb orb negb]; try reflexivity; try lia.


(** ** Resolving the primitives *)

Lemma truediv_ok (x y : R) : y <> 0 -> Py.truediv x y = Ok (x / y).
Proof.
  intros Hy. unfold Py.truediv.
  destruct (Req_dec_T y 0) as [E | _]; [contradiction | reflexivity].
Qed.

Lemma truediv_zero (x : R) : Py.truediv x 0 = Raise ZeroDivisionError.
Proof.
  unfold Py.truediv.
  destruct (Req_dec_T 0 0) as [_ | N]; [reflexivity | now elim N].
Qed.

Lemma min2_Rmin (a b : R) : Py.min2 a b = Rmin a b.
Proof.
  unfold Py.min2, Rmin.
  destruct (Rlt_dec b a), (Rle_dec a b); try reflexivity; lra.
Qed.

Lemma max2_Rmax (a b : R) : Py.max2 a b = Rmax a b.
Proof.
  unfold Py.max2, Rmax.
  destruct (Rlt_dec a b), (Rle_dec a b); try reflexivity; lra.
Qed.

Lemma int_nonneg (x : R) : 0 <= x -> Py.int x = Zfloor x.
Proof.
  intros Hx. unfold Py.int.
  destruct (Rle_dec 0 x); [reflexivity | contradiction].
Qed.

Lemma int_IZR (z : Z) : Py.int (IZR z) = z.
Proof.
  unfold Py.int. destruct (Rle_dec 0 (IZR z)).
  - apply ZfloorZ.
  - rewrite ZfloorNZ. lia.
Qed.

Lemma int_between (z : Z) (x : R) :
  (0 <= z)%Z -> IZR z <= x < IZR z + 1 -> Py.int x = z.
Proof.
  intros Hz Hx. rewrite int_nonneg.
  - now apply Zfloor_eq.
  - apply IZR_le in Hz. lra.
Qed.

(** ** Pitch mapping *)

Lemma frequency_multiplier_active (c : commit) :
  (0 < activity c)%Z ->
  frequency_multiplier c =
  Ok (0.5 + IZR (additions c) / IZR (additions c + deletions c) * 1.5).
Proof.
  intros Hact. unfold frequency_multiplier.
  destruct (Z.gtb_spec (activity c) 0) as [_ | H]; [| lia].
  rewrite truediv_ok; [reflexivity |].
  apply not_0_IZR. lia.
Qed.

Lemma frequency_multiplier_idle (c : commit) :
  (activity c <= 0)%Z -> frequency_multiplier c = Ok 1.0.
Proof.
  intros Hact. unfold frequency_multiplier.
  destruct (Z.gtb_spec (activity c) 0) as [H | _]; [lia | reflexivity].
Qed.

Lemma add_ratio_bounds (a s : Z) :
  (0 <= a)%Z -> (0 <= s)%Z -> (0 < a + s)%Z ->
  0 <= IZR a / IZR (a + s) <= 1.
Proof.
  intros Ha Hs Hpos.
  assert (Hd : 0 < IZR (a + s)) by now apply IZR_lt.
  assert (Ha' : 0 <= IZR a) by now apply IZR_le.
  assert (Hle : IZR a <= IZR (a + s)) by (apply IZR_le; lia).
  split.
  - apply Rmult_le_pos; [assumption |].
    left. now apply Rinv_0_lt_compat.
  - apply Rmult_le_reg_r with (IZR (a + s)); [assumption |].
    unfold Rdiv. rewrite Rmult_assoc, Rinv_l by lra. lra.
Qed.

(** C4: the frequency multiplier is [0.5 + additive / activity * 1.5]
    when the activity is positive and exactly [1.0] when it is zero; it
    always lies in [0.5, 2.0]; a pure-additive event gives exactly 2.0
    and a pure-subtractive one exactly 0.5. *)
Theorem C4_frequency_multiplier (c : commit) :
  (0 <= additions c)%Z -> (0 <= deletions c)%Z ->
  ((0 < additions c + deletions c)%Z ->
     frequency_multiplier c =
     Ok (0.5 + IZR (additions c) / IZR (additions c + deletions c) * 1.5)) /\
  ((additions c + deletions c = 0)%Z -> frequency_multiplier c = Ok 1.0) /\
  (exists m, frequency_multiplier c = Ok m /\ 0.5 <= m <= 2.0) /\
  ((0 < additions c)%Z -> deletions c = 0%Z ->
     frequency_multiplier c = Ok 2.0) /\
  (additions c = 0%Z -> (0 < deletions c)%Z ->
     frequency_multiplier c = Ok 0.5).
Proof.
  intros Ha Hs. repeat split.
  - apply frequency_multiplier_active.
  - intros H0. apply frequency_multiplier_idle. unfold activity. lia.
  - destruct (Z_lt_le_dec 0 (activity c)) as [Hpos | Hz].
    + eexists. split; [now apply frequency_multiplier_active |].
      pose proof (add_ratio_bounds _ _ Ha Hs Hpos). lra.
    + exists 1.0. split; [now apply frequency_multiplier_idle | lra].
  - intros Hp Hd. rewrite frequency_multiplier_active by (unfold activity; lia).
    f_equal. rewrite Hd, Z.add_0_r.
    assert (IZR (additions c) <> 0) by (apply not_0_IZR; lia).
    replace (IZR (additions c) / IZR (additions c)) with 1
      by (field; assumption).
    lra.
  - intros Hd Hp. rewrite frequency_multiplier_active by (unfold activity; lia).
    f_equal. rewrite Hd. simpl (0 + deletions c)%Z.
    assert (IZR (deletions c) <> 0) by (apply not_0_IZR; lia).
    replace (0 / IZR (deletions c)) with 0 by (field; assumption).
    lra.
Qed.

Lemma C4_frequency_multiplier_witness :
  frequency_multiplier (mkCommit 1700000000 10 0) = Ok 2.0 /\
  frequency_multiplier (mkCommit 1700000000 0 10) = Ok 0.5.
Proof.
  split.
  - apply (C4_frequency_multiplier (mkCommit 1700000000 10 0)); simpl; lia.
  - apply (C4_frequency_multiplier (mkCommit 1700000000 0 10)); simpl; lia.
Defined.

(** ** Envelope *)

Lemma phase_times (d : R) :
  0 < d ->
  0 < attack_time d /\ 0 < decay_time d /\ 0 < release_time d /\
  attack_time d + decay_time d < d - release_time d.
Proof.
  intros Hd. unfold attack_time, decay_time, release_time.
  rewrite !min2_Rmin. unfold Rmin.
  repeat match goal with
  | |- context [Rle_dec ?a ?b] => destruct (Rle_dec a b)
  end; lra.
Qed.

Lemma adsr_envelope_spec (t d : R) :
  0 < d -> _adsr_envelope t d = Ok (envelope_spec t d).
Proof.
  intros Hd. destruct (phase_times d Hd) as (Ha & Hdc & Hr & _).
  unfold _adsr_envelope, envelope_spec, sustain_level.
  unfold attack_time, decay_time, release_time in *.
  rewrite !min2_Rmin in *.
  set (a := Rmin 0.01 (d * 0.1)) in *.
  set (dc := Rmin 0.02 (d * 0.2)) in *.
  set (r := Rmin 0.05 (d * 0.3)) in *.
  destruct (Rlt_dec t a).
  { apply truediv_ok. lra. }
  destruct (Rlt_dec t (a + dc)).
  { rewrite truediv_ok by lra. simpl. f_equal. lra. }
  destruct (Rlt_dec t (d - r)).
  { reflexivity. }
  rewrite truediv_ok by lra. simpl. f_equal. lra.
Qed.

(** Two continuous functions that agree at [b], glued at [b]. *)
Lemma continuity_glue (f g : R -> R) (b : R) :
  continuity f -> continuity g -> f b = g b ->
  continuity (fun t => if Rlt_dec t b then f t else g t).
Proof.
  intros Hf Hg Hb x eps Heps.
  destruct (Hf x eps Heps) as (af & Haf & Hfx).
  destruct (Hg x eps Heps) as (ag & Hag & Hgx).
  simpl in *. unfold R_dist in *.
  destruct (Rtotal_order x b) as [Hlt | [Heq | Hgt]].
  - exists (Rmin af (b - x)). split.
    { apply Rmin_pos; lra. }
    intros t [HD Ht].
    assert (Ht1 : Rabs (t - x) < af)
      by (eapply Rlt_le_trans; [exact Ht | apply Rmin_l]).
    assert (Ht2 : Rabs (t - x) < b - x)
      by (eapply Rlt_le_trans; [exact Ht | apply Rmin_r]).
    assert (t < b) by (pose proof (Rle_abs (t - x)); lra).
    destruct (Rlt_dec t b); [| lra]. destruct (Rlt_dec x b); [| lra].
    apply Hfx. split; assumption.
  - subst x. exists (Rmin af ag). split.
    { apply Rmin_pos; lra. }
    intros t [HD Ht].
    assert (Ht1 : Rabs (t - b) < af)
      by (eapply Rlt_le_trans; [exact Ht | apply Rmin_l]).
    assert (Ht2 : Rabs (t - b) < ag)
      by (eapply Rlt_le_trans; [exact Ht | apply Rmin_r]).
    destruct (Rlt_dec b b); [lra |].
    destruct (Rlt_dec t b).
    + rewrite <- Hb. apply Hfx. split; assumption.
    + apply Hgx. split; assumption.
  - exists (Rmin ag (x - b)). split.
    { apply Rmin_pos; lra. }
    intros t [HD Ht].
    assert (Ht1 : Rabs (t - x) < ag)
      by (eapply Rlt_le_trans; [exact Ht | apply Rmin_l]).
    assert (Ht2 : Rabs (t - x) < x - b)
      by (eapply Rlt_le_trans; [exact Ht | apply Rmin_r]).
    assert (b < t).
    { pose proof (Rle_abs (- (t - x))). rewrite Rabs_Ropp in H. lra. }
    destruct (Rlt_dec t b); [lra |]. destruct (Rlt_dec x b); [lra |].
    apply Hgx. split; assumption.
Qed.

Lemma continuity_affine (k m : R) : continuity (fun t => k * t + m).
Proof.
  apply continuity_plus.
  - apply continuity_mult; [apply continuity_const; intros ? ?; reflexivity |].
    apply derivable_continuous, derivable_id.
  - apply continuity_const. intros ? ?. reflexivity.
Qed.

Lemma continuity_ext (f g : R -> R) :
  (forall t, f t = g t) -> continuity f -> continuity g.
Proof.
  intros E Hf x eps Heps.
  destruct (Hf x eps Heps) as (al & Hal & H).
  exists al. split; [assumption |].
  intros t Ht. rewrite <- !E. now apply H.
Qed.

Lemma envelope_spec_continuous (d : R) :
  0 < d -> continuity (fun t => envelope_spec t d).
Proof.
  intros Hd. destruct (phase_times d Hd) as (Ha & Hdc & Hr & Hord).
  unfold attack_time, decay_time, release_time in *.
  rewrite !min2_Rmin in *. unfold envelope_spec.
  set (a := Rmin 0.01 (d * 0.1)) in *.
  set (dc := Rmin 0.02 (d * 0.2)) in *.
  set (r := Rmin 0.05 (d * 0.3)) in *.
  apply (continuity_glue (fun t => t / a)).
  - apply continuity_ext with (fun t => / a * t + 0);
      [intros; cbv beta; field; lra | apply continuity_affine].
  - apply (continuity_glue (fun t => 1 - (1 - 0.7) * ((t - a) / dc))).
    + apply continuity_ext
        with (fun t => (- (1 - 0.7) / dc) * t + (1 + (1 - 0.7) * a / dc));
        [intros; cbv beta; field; lra | apply continuity_affine].
    + apply (continuity_glue (fun _ => 0.7)).
      * apply continuity_ext with (fun t => 0 * t + 0.7);
          [intros; lra | apply continuity_affine].
      * apply continuity_ext
          with (fun t => (- (0.7) / r) * t + (0.7 + 0.7 * (d - r) / r));
          [intros; cbv beta; field; lra | apply continuity_affine].
      * cbv beta. field. lra.
    + cbv beta. destruct (Rlt_dec (a + dc) (d - r)); [| lra]. field. lra.
  - cbv beta. destruct (Rlt_dec a (a + dc)); [| lra]. field. lra.
Qed.

Lemma adsr_envelope_exact (d : R) :
  0 < d ->
  (forall t, _adsr_envelope t d = Ok (envelope_spec t d)) /\
  (0 < attack_time d /\
   attack_time d < attack_time d + decay_time d /\
   attack_time d + decay_time d < d - release_time d /\
   d - release_time d < d) /\
  _adsr_envelope 0 d = Ok 0 /\
  _adsr_envelope d d = Ok 0 /\
  _adsr_envelope (attack_time d) d = Ok 1 /\
  _adsr_envelope (attack_time d + decay_time d) d = Ok 0.7 /\
  _adsr_envelope (d - release_time d) d = Ok 0.7 /\
  continuity (envelope_value d).
Proof.
  intros Hd. pose proof (phase_times d Hd) as (Ha & Hdc & Hr & Hord).
  split; [intros t; now apply adsr_envelope_spec |].
  split; [lra |].
  assert (Hval : forall t v, envelope_spec t d = v -> _adsr_envelope t d = Ok v).
  { intros t v <-. now apply adsr_envelope_spec. }
  unfold attack_time, decay_time, release_time in *.
  rewrite !min2_Rmin in *.
  repeat split.
  - apply Hval. unfold envelope_spec.
    destruct (Rlt_dec 0 (Rmin 0.01 (d * 0.1))); [| lra]. field. lra.
  - apply Hval. unfold envelope_spec.
    set (a := Rmin 0.01 (d * 0.1)) in *.
    set (dc := Rmin 0.02 (d * 0.2)) in *.
    set (r := Rmin 0.05 (d * 0.3)) in *.
    destruct (Rlt_dec d a); [lra |].
    destruct (Rlt_dec d (a + dc)); [lra |].
    destruct (Rlt_dec d (d - r)); [lra |]. field. lra.
  - apply Hval. unfold envelope_spec.
    set (a := Rmin 0.01 (d * 0.1)) in *.
    set (dc := Rmin 0.02 (d * 0.2)) in *.
    destruct (Rlt_dec a a); [lra |].
    destruct (Rlt_dec a (a + dc)); [| lra]. field. lra.
  - apply Hval. unfold envelope_spec.
    set (a := Rmin 0.01 (d * 0.1)) in *.
    set (dc := Rmin 0.02 (d * 0.2)) in *.
    set (r := Rmin 0.05 (d * 0.3)) in *.
    destruct (Rlt_dec (a + dc) a); [lra |].
    destruct (Rlt_dec (a + dc) (a + dc)); [lra |].
    destruct (Rlt_dec (a + dc) (d - r)); [| lra]. reflexivity.
  - apply Hval. unfold envelope_spec.
    set (a := Rmin 0.01 (d * 0.1)) in *.
    set (dc := Rmin 0.02 (d * 0.2)) in *.
    set (r := Rmin 0.05 (d * 0.3)) in *.
    destruct (Rlt_dec (d - r) a); [lra |].
    destruct (Rlt_dec (d - r) (a + dc)); [lra |].
    destruct (Rlt_dec (d - r) (d - r)); [lra |]. field. lra.
  - apply continuity_ext with (fun t => envelope_spec t d).
    + intros t. unfold envelope_value.
      now rewrite adsr_envelope_spec.
    + now apply envelope_spec_continuous.
Qed.

(** C3 (as stated) fails: in binary64 the envelope of a note of
    duration 1.0 is not exactly 0 at its end, [t = d = 1.0]; the release
    branch returns a small negative number (about -6.2e-16). *)
Lemma C3_counterexample :
  exists v, _adsr_envelope_b64 1 1 = Ok v /\
    PrimFloat.eqb v 0 = false /\ PrimFloat.ltb v 0 = true.
Proof.
  eexists. split; [vm_compute; reflexivity |].
  split; vm_compute; reflexivity.
Qed.

(** C3 (amended): in exact real arithmetic, for every note duration
    [d > 0] the envelope never raises and is the four-phase piecewise
    function of the specification, with its phases strictly ordered; it
    is exactly 0 at [t = 0] and at [t = d], reaches 1 at the end of the
    attack and the sustain level at the end of the decay and at the
    start of the release, and is continuous.  In binary64, for the
    durations 0.1, 0.01 and 1.0, the value at [t = 0] is exactly 0.0 and
    the value at [t = d] is 0.0 up to rounding: its absolute value is at
    most 1e-15. *)
Theorem C3_adsr_envelope :
  (forall d : R, 0 < d ->
     (forall t, _adsr_envelope t d = Ok (envelope_spec t d)) /\
     (0 < attack_time d /\
      attack_time d < attack_time d + decay_time d /\
      attack_time d + decay_time d < d - release_time d /\
      d - release_time d < d) /\
     _adsr_envelope 0 d = Ok 0 /\
     _adsr_envelope d d = Ok 0 /\
     _adsr_envelope (attack_time d) d = Ok 1 /\
     _adsr_envelope (attack_time d + decay_time d) d = Ok 0.7 /\
     _adsr_envelope (d - release_time d) d = Ok 0.7 /\
     continuity (envelope_value d)) /\
  Forall (fun d => _adsr_envelope_b64 0 d = Ok 0%float)
    [0.1; 0.01; 1.0]%float /\
  Forall (fun d => exists v, _adsr_envelope_b64 d d = Ok v /\
                     PrimFloat.leb (PrimFloat.abs v) 1e-15 = true)
    [0.1; 0.01; 1.0]%float.
Proof.
  split; [exact adsr_envelope_exact |].
  split.
  - repeat constructor.
  - repeat constructor; eexists; (split; [vm_compute; reflexivity |]);
      vm_compute; reflexivity.
Qed.

Lemma C3_adsr_envelope_witness :
  _adsr_envelope 0 0.1 = Ok 0 /\ _adsr_envelope 0.1 0.1 = Ok 0 /\
  continuity (envelope_value 0.1).
Proof.
  assert (H : 0 < 0.1) by lra.
  destruct C3_adsr_envelope as (Hreal & _).
  pose proof (Hreal 0.1 H) as (_ & _ & H0 & Hd & _ & _ & _ & Hc).
  repeat split; assumption.
Defined.

(** ** The mixing loop as pointwise addition *)

Lemma add_from_length g j audio : length (add_from g j audio) = length audio.
Proof.
  revert j. induction audio as [| x xs IH]; intros j; simpl; [reflexivity |].
  now rewrite IH.
Qed.

Lemma add_from_ext g g' j audio :
  (forall k, (j <= k < j + Z.of_nat (length audio))%Z -> g k = g' k) ->
  add_from g j audio = add_from g' j audio.
Proof.
  revert j. induction audio as [| x xs IH]; intros j H; simpl; [reflexivity |].
  rewrite H by (simpl length; lia). f_equal.
  apply IH. intros k Hk. apply H. simpl length. lia.
Qed.

Lemma add_from_zero g j audio :
  (forall k, (j <= k < j + Z.of_nat (length audio))%Z -> g k = 0) ->
  add_from g j audio = audio.
Proof.
  revert j. induction audio as [| x xs IH]; intros j H; simpl; [reflexivity |].
  rewrite H by (simpl length; lia). rewrite Rplus_0_r. f_equal.
  apply IH. intros k Hk. apply H. simpl length. lia.
Qed.

Lemma add_from_add g1 g2 j audio :
  add_from g1 j (add_from g2 j audio) =
  add_from (fun k => g2 k + g1 k) j audio.
Proof.
  revert j. induction audio as [| x xs IH]; intros j; simpl; [reflexivity |].
  rewrite IH. f_equal. ring.
Qed.


Lemma set_nth_add_from (audio : list R) (n : nat) (v : R) (off : Z) :
  (n < length audio)%nat ->
  Py.set_nth audio n (nth n audio 0 + v) =
  add_from (fun k => if (k =? off + Z.of_nat n)%Z then v else 0) off audio.
Proof.
  revert n off. induction audio as [| x xs IH]; intros n off Hn; simpl in Hn.
  - lia.
  - destruct n as [| n]; simpl.
    + rewrite Z.add_0_r, Z.eqb_refl. f_equal.
      symmetry. apply add_from_zero. intros k Hk.
      destruct (Z.eqb_spec k off); [lia | reflexivity].
    + destruct (Z.eqb_spec off (off + Z.pos (Pos.of_succ_nat n))); [lia |].
      rewrite Rplus_0_r. f_equal.
      rewrite (IH n (off + 1)%Z) by lia.
      apply add_from_ext. intros k _.
      replace (off + 1 + Z.of_nat n)%Z
        with (off + Z.pos (Pos.of_succ_nat n))%Z by lia.
      reflexivity.
Qed.

Lemma iadd_ok (audio : list R) (k : Z) (v : R) :
  (0 <= k < Z.of_nat (length audio))%Z ->
  Py.iadd audio k v =
  Ok (add_from (fun j => if (j =? k)%Z then v else 0) 0 audio).
Proof.
  intros Hk. unfold Py.iadd, Py.index.
  destruct (Z.ltb_spec k 0) as [H | _]; [lia |].
  destruct (Z.leb_spec 0 k) as [_ | H]; [| lia].
  destruct (Z.ltb_spec k (Z.of_nat (length audio))) as [_ | H]; [| lia].
  simpl. f_equal.
  rewrite (set_nth_add_from audio (Z.to_nat k) v 0) by lia.
  apply add_from_ext. intros j _. now rewrite Z2Nat.id by lia.
Qed.

Section Mixing.

Variable self : MusicGenerator.
Variable sc : scalars.

Lemma note_loop_break start f v m n audio :
  (total_samples sc <= start + Z.of_nat m)%Z ->
  note_loop self sc start f v (map Z.of_nat (seq m n)) audio = Ok audio.
Proof.
  intros H. destruct n as [| n]; simpl; [reflexivity |].
  rewrite Z.geb_leb.
  destruct (Z.leb_spec (total_samples sc) (start + Z.of_nat m)); [reflexivity | lia].
Qed.

Lemma note_loop_ok start f v :
  (0 <= start)%Z ->
  (forall i, exists x, note_value self f v i = Ok x) ->
  forall n m audio,
  length audio = Z.to_nat (total_samples sc) ->
  note_loop self sc start f v (map Z.of_nat (seq m n)) audio =
  Ok (add_from
        (fun j =>
           if ((start + Z.of_nat m <=? j) &&
               (j <? start + Z.of_nat m + Z.of_nat n))%Z%bool
           then value 0 (note_value self f v (j - start)) else 0)
        0 audio).
Proof.
  intros Hstart Hval. induction n as [| n IH]; intros m audio Hlen.
  - cbn [seq map note_loop]. f_equal. symmetry.
    apply add_from_zero. intros k _. decide_Z.
  - cbn [seq map note_loop]. rewrite Z.geb_leb.
    destruct (Z.leb_spec (total_samples sc) (start + Z.of_nat m)) as [Hge | Hlt].
    + f_equal. symmetry. apply add_from_zero. intros k Hk. decide_Z.
    + destruct (Hval (Z.of_nat m)) as [x Hx]. rewrite Hx. cbn [bind].
      rewrite iadd_ok by lia. cbn [bind].
      rewrite IH by (now rewrite add_from_length).
      f_equal. rewrite add_from_add. apply add_from_ext. intros k _.
      destruct (Z.eqb_spec k (start + Z.of_nat m)) as [-> | Hne].
      * replace (start + Z.of_nat m - start)%Z with (Z.of_nat m) by lia.
        rewrite Hx. cbn [value]. decide_Z; ring.
      * rewrite Rplus_0_l. decide_Z.
Qed.

End Mixing.

(** ** Placement of a commit in the buffer *)

Lemma int_bounds (x : R) (n : Z) :
  0 <= x <= IZR n -> (0 <= Py.int x <= n)%Z.
Proof.
  intros [H0 Hn]. rewrite int_nonneg by assumption.
  pose proof (Zfloor_bound x) as [Hlo Hhi]. split.
  - apply (Zfloor_lub 0). assumption.
  - apply le_IZR. lra.
Qed.

Lemma int_lower (x : R) (n : Z) :
  IZR n <= x -> x <= 0 -> (n <= Py.int x)%Z.
Proof.
  intros Hn H0. unfold Py.int. destruct (Rle_dec 0 x).
  - apply Zfloor_lub. assumption.
  - pose proof (Zfloor_bound (- x)) as [Hlo Hhi].
    assert (IZR (Zfloor (- x)) <= IZR (- n)) by (rewrite opp_IZR; lra).
    apply le_IZR in H. lia.
Qed.

Lemma int_ge_1 (x : R) : (1 <= Py.int x)%Z -> 1 <= x.
Proof.
  unfold Py.int. destruct (Rle_dec 0 x); intros H.
  - pose proof (Zfloor_bound x) as [Hlo _]. apply IZR_le in H. lra.
  - assert (0 <= Zfloor (- x))%Z by (apply (Zfloor_lub 0); lra). lia.
Qed.

Section Placement.

Variable self : MusicGenerator.
Variable sc : scalars.
Hypothesis Hsound : sound sc.

Lemma t_norm_unit (c : commit) :
  placed sc c ->
  exists x, t_norm sc c = Ok x /\ 0 <= x <= 1.
Proof.
  intros [Hlo Hhi]. destruct Hsound as [Hr _].
  assert (Hr' : 0 < IZR (time_range sc)) by now apply IZR_lt.
  unfold t_norm. rewrite truediv_ok by lra.
  eexists. split; [reflexivity |].
  apply IZR_le in Hlo, Hhi. split.
  - apply Rmult_le_pos; [assumption | left; now apply Rinv_0_lt_compat].
  - apply Rmult_le_reg_r with (IZR (time_range sc)); [assumption |].
    unfold Rdiv. rewrite Rmult_assoc, Rinv_l by lra. lra.
Qed.

Lemma start_sample_bounds (c : commit) :
  placed sc c ->
  exists s, start_sample sc c = Ok s /\
    ((0 <= total_samples sc)%Z -> (0 <= s <= total_samples sc)%Z) /\
    ((total_samples sc < 0)%Z -> (total_samples sc <= s)%Z).
Proof.
  intros Hp. destruct (t_norm_unit c Hp) as (x & Hx & Hx0 & Hx1).
  unfold start_sample. rewrite Hx. cbn [bind].
  eexists. split; [reflexivity |]. split; intros Ht.
  - apply int_bounds. apply IZR_le in Ht. nra.
  - apply IZR_lt in Ht. apply int_lower; nra.
Qed.

Lemma frequency_multiplier_total (c : commit) :
  exists m, frequency_multiplier c = Ok m.
Proof.
  destruct (Z_lt_le_dec 0 (activity c)).
  - eexists. now apply frequency_multiplier_active.
  - eexists. now apply frequency_multiplier_idle.
Qed.

Lemma volume_total (c : commit) :
  volume sc c =
  Ok (Py.min2 1.0 (IZR (activity c) / IZR (max_activity sc) * 0.5)).
Proof.
  destruct Hsound as [_ Hm]. unfold volume.
  rewrite truediv_ok by now apply not_0_IZR. reflexivity.
Qed.

Lemma adsr_envelope_total (t d : R) :
  d <> 0 -> exists v, _adsr_envelope t d = Ok v.
Proof.
  intros Hd.
  assert (Ha : attack_time d <> 0)
    by (unfold attack_time, Py.min2; decide_R).
  assert (Hdc : decay_time d <> 0)
    by (unfold decay_time, Py.min2; decide_R).
  assert (Hr : release_time d <> 0)
    by (unfold release_time, Py.min2; decide_R).
  unfold _adsr_envelope.
  destruct (Rlt_dec t (attack_time d)).
  { rewrite truediv_ok by assumption. eauto. }
  destruct (Rlt_dec t (attack_time d + decay_time d)).
  { rewrite truediv_ok by assumption. cbn [bind]. eauto. }
  destruct (Rlt_dec t (d - release_time d)).
  { eauto. }
  rewrite truediv_ok by assumption. cbn [bind]. eauto.
Qed.

Lemma note_value_total (f v : R) (i : Z) :
  (1 <= note_samples self)%Z ->
  exists x, note_value self f v i = Ok x.
Proof.
  intros Hn. apply int_ge_1 in Hn.
  assert (Hsr : IZR (sample_rate self) <> 0) by (intros E; rewrite E in Hn; lra).
  assert (Hd : duration_per_commit self <> 0) by (intros E; rewrite E in Hn; lra).
  unfold note_value. rewrite truediv_ok by assumption. cbn [bind].
  destruct (adsr_envelope_total (IZR i / IZR (sample_rate self)) _ Hd) as [e He].
  rewrite He. cbn [bind]. eauto.
Qed.

(** One iteration of the outer loop adds the commit's contribution to
    the buffer and leaves its length alone. *)
Lemma mix_commit_ok (audio : list R) (c : commit) :
  placed sc c ->
  length audio = Z.to_nat (total_samples sc) ->
  mix_commit self sc audio c = Ok (add_from (contribution self sc c) 0 audio).
Proof.
  intros Hp Hlen.
  destruct (start_sample_bounds c Hp) as (s & Hs & Hs0 & Hsneg).
  destruct (frequency_multiplier_total c) as [fm Hfm].
  unfold mix_commit, contribution.
  rewrite Hs, Hfm, volume_total. cbn [bind value]. unfold Py.range.
  destruct (Z_lt_le_dec s (total_samples sc)) as [Hin | Hout].
  - assert (Hs' : (0 <= s)%Z) by lia.
    destruct (Z_lt_le_dec (note_samples self) 1) as [Hn | Hn].
    + replace (Z.to_nat (note_samples self)) with 0%nat by lia.
      cbn [seq map note_loop]. f_equal. symmetry.
      apply add_from_zero. intros k _. decide_Z.
    + rewrite note_loop_ok; try assumption.
      * f_equal. apply add_from_ext. intros k _.
        rewrite Z.add_0_r, Z2Nat.id by lia. reflexivity.
      * intros i. now apply note_value_total.
  - rewrite note_loop_break by lia. f_equal. symmetry.
    apply add_from_zero. intros k Hk. decide_Z.
Qed.

Lemma mix_commits_ok (commits : list commit) :
  Forall (placed sc) commits ->
  forall audio, length audio = Z.to_nat (total_samples sc) ->
  mix_commits self sc commits audio =
  Ok (add_from (total_contribution self sc commits) 0 audio).
Proof.
  induction 1 as [| c cs Hc Hcs IH]; intros audio Hlen.
  - simpl. f_equal. symmetry. now apply add_from_zero.
  - cbn [mix_commits]. rewrite mix_commit_ok by assumption. cbn [bind].
    rewrite IH by now rewrite add_from_length.
    f_equal. rewrite add_from_add. apply add_from_ext. intros k _.
    reflexivity.
Qed.

End Placement.

(** ** The derived scalars *)

Lemma fold_min_spec (xs : list Z) (x : Z) :
  In (fold_left Z.min xs x) (x :: xs) /\
  Forall (fun y => (fold_left Z.min xs x <= y)%Z) (x :: xs).
Proof.
  revert x. induction xs as [| y ys IH]; intros x; simpl.
  - split; [now left | constructor; [lia | constructor]].
  - destruct (IH (Z.min x y)) as [Hin Hall]. split.
    + destruct Hin as [Hin | Hin]; [| now right; right].
      rewrite <- Hin. destruct (Z.min_spec x y) as [[_ ->] | [_ ->]]; auto.
    + inversion Hall as [| ? ? Hm Hys]; subst.
      constructor; [lia |]. constructor; [lia | assumption].
Qed.

Lemma fold_max_spec (xs : list Z) (x : Z) :
  In (fold_left Z.max xs x) (x :: xs) /\
  Forall (fun y => (y <= fold_left Z.max xs x)%Z) (x :: xs).
Proof.
  revert x. induction xs as [| y ys IH]; intros x; simpl.
  - split; [now left | constructor; [lia | constructor]].
  - destruct (IH (Z.max x y)) as [Hin Hall]. split.
    + destruct Hin as [Hin | Hin]; [| now right; right].
      rewrite <- Hin. destruct (Z.max_spec x y) as [[_ ->] | [_ ->]]; auto.
    + inversion Hall as [| ? ? Hm Hys]; subst.
      constructor; [lia |]. constructor; [lia | assumption].
Qed.

Lemma min_Z_perm (l l' : list Z) :
  Permutation l l' -> Py.min_Z l = Py.min_Z l'.
Proof.
  intros HP. destruct l as [| x xs], l' as [| y ys]; simpl.
  - reflexivity.
  - now apply Permutation_nil in HP.
  - symmetry in HP. now apply Permutation_nil in HP.
  - f_equal.
    destruct (fold_min_spec xs x) as [Hin Hall].
    destruct (fold_min_spec ys y) as [Hin' Hall'].
    rewrite Forall_forall in Hall, Hall'.
    apply Z.le_antisymm.
    + apply Hall. eapply Permutation_in; [symmetry; exact HP | exact Hin'].
    + apply Hall'. eapply Permutation_in; [exact HP | exact Hin].
Qed.

Lemma max_Z_perm (l l' : list Z) :
  Permutation l l' -> Py.max_Z l = Py.max_Z l'.
Proof.
  intros HP. destruct l as [| x xs], l' as [| y ys]; simpl.
  - reflexivity.
  - now apply Permutation_nil in HP.
  - symmetry in HP. now apply Permutation_nil in HP.
  - f_equal.
    destruct (fold_max_spec xs x) as [Hin Hall].
    destruct (fold_max_spec ys y) as [Hin' Hall'].
    rewrite Forall_forall in Hall, Hall'.
    apply Z.le_antisymm.
    + apply Hall'. eapply Permutation_in; [exact HP | exact Hin].
    + apply Hall. eapply Permutation_in; [symmetry; exact HP | exact Hin'].
Qed.

Section Scalars.

Variable self : MusicGenerator.

Lemma derive_perm (l l' : list commit) :
  Permutation l l' -> derive self l = derive self l'.
Proof.
  intros HP. unfold derive, total_duration.
  rewrite (min_Z_perm _ _ (Permutation_map timestamp HP)).
  rewrite (max_Z_perm _ _ (Permutation_map timestamp HP)).
  rewrite (max_Z_perm _ _ (Permutation_map activity HP)).
  rewrite (Permutation_length HP). reflexivity.
Qed.

Lemma or_Z_nonzero (x : Z) : Py.or_Z x 1 <> 0%Z.
Proof. unfold Py.or_Z. destruct (Z.eqb_spec x 0); lia. Qed.

Lemma derive_ok (c : commit) (cs : list commit) :
  exists sc, derive self (c :: cs) = Ok sc /\
    sound sc /\ Forall (placed sc) (c :: cs) /\
    total_samples sc =
      Py.int (total_duration self (c :: cs) * IZR (sample_rate self)).
Proof.
  unfold derive. cbn [map Py.min_Z Py.max_Z bind].
  eexists. split; [reflexivity |].
  destruct (fold_min_spec (map timestamp cs) (timestamp c)) as [_ Hlo].
  destruct (fold_max_spec (map timestamp cs) (timestamp c)) as [_ Hhi].
  set (lo := fold_left Z.min (map timestamp cs) (timestamp c)) in *.
  set (hi := fold_left Z.max (map timestamp cs) (timestamp c)) in *.
  change (timestamp c :: map timestamp cs)
    with (map timestamp (c :: cs)) in Hlo, Hhi.
  rewrite Forall_map in Hlo, Hhi.
  assert (Hspan : (lo <= hi)%Z).
  { inversion Hlo; inversion Hhi; subst. lia. }
  assert (Hrange : (hi - lo <= Py.or_Z (hi - lo) 1)%Z /\
                   (0 < Py.or_Z (hi - lo) 1)%Z).
  { unfold Py.or_Z. destruct (Z.eqb_spec (hi - lo) 0); lia. }
  repeat split; cbn [time_range max_activity total_samples min_time].
  - apply Hrange.
  - apply or_Z_nonzero.
  - rewrite Forall_forall in *. intros x Hx. unfold placed.
    cbn [time_range min_time].
    specialize (Hlo x Hx). specialize (Hhi x Hx). lia.
Qed.

End Scalars.

(** ** Normalisation *)

Lemma fold_max2_spec (xs : list R) (x : R) :
  In (fold_left Py.max2 xs x) (x :: xs) /\
  Forall (fun y => y <= fold_left Py.max2 xs x) (x :: xs).
Proof.
  revert x. induction xs as [| y ys IH]; intros x; simpl.
  - split; [now left | constructor; [lra | constructor]].
  - destruct (IH (Py.max2 x y)) as [Hin Hall].
    assert (Hm : (Py.max2 x y = x \/ Py.max2 x y = y) /\
                 x <= Py.max2 x y /\ y <= Py.max2 x y).
    { unfold Py.max2. destruct (Rlt_dec x y); lra. }
    destruct Hm as (Hcase & Hx & Hy). split.
    + destruct Hin as [Hin | Hin]; [| now right; right].
      rewrite <- Hin. destruct Hcase as [-> | ->]; auto.
    + inversion Hall as [| ? ? Hm Hys]; subst.
      constructor; [lra |]. constructor; [lra | assumption].
Qed.

Lemma comprehension_truediv (d : R) (l : list R) :
  d <> 0 ->
  comprehension (fun s => Py.truediv s d) l = Ok (map (fun s => s / d) l).
Proof.
  intros Hd. induction l as [| x xs IH]; simpl; [reflexivity |].
  rewrite truediv_ok by assumption. cbn [bind]. rewrite IH. reflexivity.
Qed.

Lemma normalize_nil : normalize [] = Raise ValueError.
Proof. reflexivity. Qed.

(** On a buffer with at least one sample the pass finds the peak and
    rescales exactly when the peak exceeds 1. *)
Lemma normalize_ok (audio : list R) :
  audio <> [] ->
  exists peak,
    Py.max_R (map Rabs audio) = Ok peak /\
    In peak (map Rabs audio) /\
    Forall (fun s => Rabs s <= peak) audio /\
    normalize audio =
      Ok (if Rlt_dec 1 peak then map (fun s => s / peak) audio else audio).
Proof.
  intros Hne. destruct audio as [| x xs]; [contradiction |].
  destruct (fold_max2_spec (map Rabs xs) (Rabs x)) as [Hin Hall].
  exists (fold_left Py.max2 (map Rabs xs) (Rabs x)).
  set (peak := fold_left Py.max2 (map Rabs xs) (Rabs x)) in *.
  change (Rabs x :: map Rabs xs) with (map Rabs (x :: xs)) in Hin, Hall.
  rewrite Forall_map in Hall.
  repeat split; try assumption.
  unfold normalize. cbn [map Py.max_R bind]. fold peak.
  unfold Py.or_R. destruct (Req_dec_T peak 0) as [E | N].
  - destruct (Rlt_dec 1.0 1.0); [lra |].
    destruct (Rlt_dec 1 peak); [lra | reflexivity].
  - destruct (Rlt_dec 1.0 peak), (Rlt_dec 1 peak); try lra.
    + now apply (comprehension_truediv peak (x :: xs)).
    + reflexivity.
Qed.

Lemma normalize_range (audio buf : list R) :
  normalize audio = Ok buf ->
  Forall in_unit buf /\ length buf = length audio.
Proof.
  intros H. destruct audio as [| x xs]; [discriminate |].
  destruct (normalize_ok (x :: xs)) as (peak & _ & _ & Hall & Hn);
    [discriminate |].
  rewrite Hn in H.
  destruct (Rlt_dec 1 peak) as [Hgt | Hle].
  - assert (Hbuf : buf = map (fun s => s / peak) (x :: xs)) by congruence.
    rewrite Hbuf. clear H Hn Hbuf.
    split; [| apply length_map].
    rewrite Forall_map. eapply Forall_impl; [| exact Hall].
    intros s Hs. cbv beta in Hs. unfold in_unit.
    assert (Hb : - peak <= s <= peak).
    { unfold Rabs in Hs. destruct (Rcase_abs s); lra. }
    assert (Hinv : 0 < / peak) by (apply Rinv_0_lt_compat; lra).
    assert (Hone : peak * / peak = 1) by (apply Rinv_r; lra).
    unfold Rdiv. split; nra.
  - assert (Hbuf : buf = x :: xs) by congruence.
    rewrite Hbuf. clear H Hn Hbuf.
    split; [| reflexivity].
    eapply Forall_impl; [| exact Hall].
    intros s Hs. cbv beta in Hs. unfold in_unit.
    unfold Rabs in Hs. destruct (Rcase_abs s); lra.
Qed.

(** ** The render *)

Section RenderFacts.

Variable self : MusicGenerator.

Lemma replicate_length (v : R) (n : Z) :
  length (Py.replicate v n) = Z.to_nat n.
Proof. apply repeat_length. Qed.

(** The mixing loop never raises; it returns the zero buffer plus the
    contributions of all commits. *)
Lemma mixed_ok (c : commit) (cs : list commit) :
  exists sc, derive self (c :: cs) = Ok sc /\
    sound sc /\ Forall (placed sc) (c :: cs) /\
    total_samples sc = buffer_length self (c :: cs) /\
    mixed self (c :: cs) =
      Ok (add_from (total_contribution self sc (c :: cs)) 0
            (Py.replicate 0.0 (total_samples sc))).
Proof.
  destruct (derive_ok self c cs) as (sc & Hsc & Hsound & Hplaced & Htot).
  exists sc. repeat split; try assumption; try apply Hsound.
  unfold mixed. rewrite Hsc. cbn [bind].
  apply mix_commits_ok; try assumption.
  apply replicate_length.
Qed.

Lemma sonification_unfold (c : commit) (cs : list commit) :
  _generate_sonification self (c :: cs) =
  (audio <- mixed self (c :: cs) ;; normalize audio).
Proof.
  unfold _generate_sonification, mixed.
  destruct (derive self (c :: cs)); reflexivity.
Qed.

(** With at least one sample to allocate, the render returns a buffer
    of the allocated length with every sample in [-1, 1]. *)
Lemma render_returns (c : commit) (cs : list commit) :
  (1 <= buffer_length self (c :: cs))%Z ->
  exists buf, _generate_sonification self (c :: cs) = Ok buf /\
    Z.of_nat (length buf) = buffer_length self (c :: cs) /\
    Forall in_unit buf.
Proof.
  intros Hlen.
  destruct (mixed_ok c cs) as (sc & _ & _ & _ & Htot & Hmix).
  rewrite sonification_unfold, Hmix. cbn [bind].
  set (audio := add_from _ 0 _).
  assert (Hl : length audio = Z.to_nat (buffer_length self (c :: cs))).
  { unfold audio. now rewrite add_from_length, replicate_length, Htot. }
  assert (Hne : audio <> []).
  { intros E. rewrite E in Hl. simpl in Hl. lia. }
  destruct (normalize_ok audio Hne) as (peak & _ & _ & _ & Hn).
  eexists. split; [exact Hn |].
  destruct (normalize_range _ _ Hn) as [Hu Hl'].
  split; [| exact Hu]. rewrite Hl', Hl. lia.
Qed.

(** With nothing to allocate, the peak search raises. *)
Lemma render_raises (c : commit) (cs : list commit) :
  (buffer_length self (c :: cs) <= 0)%Z ->
  _generate_sonification self (c :: cs) = Raise ValueError.
Proof.
  intros Hlen.
  destruct (mixed_ok c cs) as (sc & _ & _ & _ & Htot & Hmix).
  rewrite sonification_unfold, Hmix. cbn [bind].
  unfold Py.replicate. rewrite Htot.
  replace (Z.to_nat (buffer_length self (c :: cs))) with 0%nat by lia.
  reflexivity.
Qed.

Lemma render_range (commits : list commit) (buf : list R) :
  _generate_sonification self commits = Ok buf -> Forall in_unit buf.
Proof.
  destruct commits as [| c cs]; intros H.
  - injection H as <-. constructor.
  - destruct (Z_lt_le_dec 0 (buffer_length self (c :: cs))) as [Hpos | Hz].
    + destruct (render_returns c cs) as (buf' & Hb & _ & Hu); [lia |].
      congruence.
    + rewrite render_raises in H by assumption. discriminate.
Qed.

Lemma silence_zero (duration : R) :
  Forall (fun s => s = 0) (silence self duration).
Proof.
  unfold silence, Py.replicate.
  apply Forall_forall. intros s Hs. apply repeat_spec in Hs. lra.
Qed.

End RenderFacts.

(** ** Claims on the render *)

(** C1: normalisation finds the peak absolute amplitude of the buffer,
    divides every sample by it exactly when it exceeds 1.0 and leaves
    the buffer alone otherwise (a zero peak is replaced by the divisor
    1.0); every sample of every buffer the render produces, for an empty
    or a non-empty list of commits, lies in [-1, 1]. *)
Theorem C1_normalized_range :
  (forall audio, audio <> [] ->
     exists peak,
       Py.max_R (map Rabs audio) = Ok peak /\
       In peak (map Rabs audio) /\
       Forall (fun s => Rabs s <= peak) audio /\
       normalize audio =
         Ok (if Rlt_dec 1 peak
             then map (fun s => s / peak) audio else audio)) /\
  Py.or_R 0 1.0 = 1 /\
  (forall audio buf, normalize audio = Ok buf -> Forall in_unit buf) /\
  (forall self commits buf,
     generate_samples self commits = Ok buf -> Forall in_unit buf).
Proof.
  split; [exact normalize_ok |].
  split; [unfold Py.or_R; destruct (Req_dec_T 0 0); lra |].
  split; [intros audio buf H; now apply (normalize_range audio) |].
  intros self [| c cs] buf H.
  - injection H as <-. eapply Forall_impl; [| apply silence_zero].
    intros s ->. unfold in_unit. lra.
  - now apply (render_range self (c :: cs)).
Qed.

Lemma C1_normalized_range_witness :
  exists buf,
    generate_samples default_generator [mkCommit 1700000000 12 3] = Ok buf /\
    Forall in_unit buf.
Proof.
  destruct (render_returns default_generator (mkCommit 1700000000 12 3) [])
    as (buf & Hbuf & _).
  { unfold buffer_length, total_duration. cbn.
    unfold Py.min2. destruct (Rlt_dec (1 * 0.1) 60.0); [| lra].
    unfold Py.int. destruct (Rle_dec 0 (1 * 0.1 * 44100)); [| lra].
    apply Zfloor_lub. lra. }
  exists buf. split; [exact Hbuf |].
  destruct C1_normalized_range as (_ & _ & _ & H).
  exact (H default_generator [mkCommit 1700000000 12 3] buf Hbuf).
Defined.

Lemma round_half_even_up (z : Z) (x : R) :
  IZR z + 1 / 2 < x < IZR z + 1 -> round_half_even x = (z + 1)%Z.
Proof.
  intros Hx. unfold round_half_even.
  rewrite (Zfloor_eq z x) by lra.
  destruct (Rlt_dec (x - IZR z) (1 / 2)); [lra |].
  destruct (Rlt_dec (1 / 2) (x - IZR z)); [reflexivity | lra].
Qed.

(** C2 (as stated) fails: one commit at 17 samples per second and 0.1 s
    per commit renders to 1 sample, where rounding 1.7 gives 2. *)
Lemma C2_counterexample :
  exists buf,
    _generate_sonification (mkGen 17 0.1 220) [mkCommit 0 1 1] = Ok buf /\
    Z.of_nat (length buf) = 1%Z /\
    spec_buffer_length (mkGen 17 0.1 220) [mkCommit 0 1 1] = 2%Z.
Proof.
  assert (Hlen : buffer_length (mkGen 17 0.1 220) [mkCommit 0 1 1] = 1%Z).
  { unfold buffer_length, total_duration. cbn.
    unfold Py.min2. destruct (Rlt_dec (1 * 0.1) 60.0); [| lra].
    apply int_between; [lia | lra]. }
  destruct (render_returns (mkGen 17 0.1 220) (mkCommit 0 1 1) [])
    as (buf & Hbuf & Hl & _); [lia |].
  exists buf. split; [exact Hbuf |]. split; [congruence |].
  unfold spec_buffer_length. cbn.
  unfold Rmin. destruct (Rle_dec 60.0 (1 * 0.1)); [lra |].
  apply (round_half_even_up 1). lra.
Qed.

Lemma sonify_at (self : MusicGenerator) (sc : scalars)
  (commits : list commit) :
  sound sc -> Forall (placed sc) commits ->
  ((1 <= total_samples sc)%Z ->
   exists buf,
     (audio <- mix_commits self sc commits
                 (Py.replicate 0.0 (total_samples sc)) ;;
      normalize audio) = Ok buf /\
     Z.of_nat (length buf) = total_samples sc /\ Forall in_unit buf) /\
  ((total_samples sc <= 0)%Z ->
   (audio <- mix_commits self sc commits
               (Py.replicate 0.0 (total_samples sc)) ;;
    normalize audio) = Raise ValueError).
Proof.
  intros Hsound Hplaced.
  rewrite (mix_commits_ok self sc Hsound commits Hplaced)
    by apply replicate_length.
  cbn [bind]. split; intros Hlen.
  - set (audio := add_from _ 0 _).
    assert (Hl : length audio = Z.to_nat (total_samples sc)).
    { unfold audio. now rewrite add_from_length, replicate_length. }
    assert (Hne : audio <> []).
    { intros E. rewrite E in Hl. simpl in Hl. lia. }
    destruct (normalize_ok audio Hne) as (peak & _ & _ & _ & Hn).
    eexists. split; [exact Hn |].
    destruct (normalize_range _ _ Hn) as [Hu Hl'].
    split; [| exact Hu]. rewrite Hl', Hl. lia.
  - unfold Py.replicate.
    replace (Z.to_nat (total_samples sc)) with 0%nat by lia.
    reflexivity.
Qed.

(** C2 (amended): for a non-empty list the buffer the render returns
    has exactly [total_samples] samples, where [total_samples] is
    [int(min(60.0, N * duration_per_commit) * sample_rate)] with both
    products computed in binary64 and the result truncated toward
    zero, not rounded; the render returns such a buffer whenever that
    number is at least 1.  One commit at 17 samples per second and
    0.1 s gives 1 sample; three commits at 44100 samples per second and
    0.3 s give 39689 samples. *)
Theorem C2_buffer_length (sample_rate : Z)
  (duration_per_commit base_frequency : float) (c : commit)
  (cs : list commit) :
  (forall buf,
     _generate_sonification_b64 sample_rate duration_per_commit
       base_frequency (c :: cs) = Ok buf ->
     total_samples_b64 sample_rate duration_per_commit (length (c :: cs))
     = Ok (Z.of_nat (length buf))) /\
  (forall total,
     total_samples_b64 sample_rate duration_per_commit (length (c :: cs))
     = Ok total ->
     (1 <= total)%Z ->
     exists buf,
       _generate_sonification_b64 sample_rate duration_per_commit
         base_frequency (c :: cs) = Ok buf /\
       Z.of_nat (length buf) = total) /\
  total_samples_b64 17 0.1 1 = Ok 1%Z /\
  total_samples_b64 44100 0.3 3 = Ok 39689%Z.
Proof.
  set (self := generator_of sample_rate duration_per_commit base_frequency).
  destruct (derive_ok self c cs) as (sc & Hsc & Hsound & Hplaced & _).
  assert (Hat : forall total,
    total_samples_b64 sample_rate duration_per_commit (length (c :: cs))
    = Ok total ->
    _generate_sonification_b64 sample_rate duration_per_commit
      base_frequency (c :: cs)
    = (audio <- mix_commits self
                  (mkScalars (min_time sc) (time_range sc) total
                     (max_activity sc)) (c :: cs)
                  (Py.replicate 0.0 total) ;;
       normalize audio)).
  { intros total Ht. unfold _generate_sonification_b64. fold self.
    rewrite Hsc. cbn [bind]. rewrite Ht. reflexivity. }
  assert (Hcases : forall total,
    let sc' := mkScalars (min_time sc) (time_range sc) total
                 (max_activity sc) in
    sound sc' /\ Forall (placed sc') (c :: cs)).
  { intros total. split; [exact Hsound | exact Hplaced]. }
  split; [| split; [| split; vm_compute; reflexivity]].
  - intros buf Hbuf.
    destruct (total_samples_b64 sample_rate duration_per_commit
                (length (c :: cs))) as [total | e] eqn:Ht.
    + rewrite (Hat total eq_refl) in Hbuf.
      destruct (Hcases total) as [Hs Hp].
      destruct (sonify_at self _ (c :: cs) Hs Hp) as [Hok Hraise].
      cbn [total_samples] in Hok, Hraise.
      destruct (Z_lt_le_dec 0 total) as [Hpos | Hz].
      * destruct Hok as (buf' & Hb & Hl & _); [lia |].
        assert (buf' = buf) by congruence. subst buf'. now rewrite Hl.
      * rewrite Hraise in Hbuf by assumption. discriminate.
    + unfold _generate_sonification_b64 in Hbuf. fold self in Hbuf.
      rewrite Hsc in Hbuf. cbn [bind] in Hbuf. rewrite Ht in Hbuf.
      discriminate.
  - intros total Ht Hpos. rewrite (Hat total Ht).
    destruct (Hcases total) as [Hs Hp].
    destruct (sonify_at self _ (c :: cs) Hs Hp) as [Hok _].
    cbn [total_samples] in Hok.
    destruct Hok as (buf & Hb & Hl & _); [assumption |]. eauto.
Qed.

Lemma C2_buffer_length_witness :
  exists buf,
    _generate_sonification_b64 17 0.1 220
      [mkCommit 0 1 1; mkCommit 5 0 2] = Ok buf /\
    Z.of_nat (length buf) = 3%Z.
Proof.
  assert (E : total_samples_b64 17 0.1
                (length [mkCommit 0 1 1; mkCommit 5 0 2]) = Ok 3%Z)
    by (vm_compute; reflexivity).
  destruct (C2_buffer_length 17 0.1 220 (mkCommit 0 1 1) [mkCommit 5 0 2])
    as (_ & H & _).
  apply (H 3%Z E). lia.
Defined.

(** C5 fails on the code: with a positive configuration whose buffer
    has no sample (one commit, 1 sample per second, 0.1 s per commit)
    the peak search of the normalisation pass raises [ValueError]. *)
Theorem C5_empty_buffer_raises :
  buffer_length (mkGen 1 0.1 220) [mkCommit 1700000000 3 1] = 0%Z /\
  _generate_sonification (mkGen 1 0.1 220) [mkCommit 1700000000 3 1]
    = Raise ValueError /\
  generate (mkGen 1 0.1 220) [mkCommit 1700000000 3 1] = Raise ValueError.
Proof.
  assert (Hlen : buffer_length (mkGen 1 0.1 220) [mkCommit 1700000000 3 1]
                 = 0%Z).
  { unfold buffer_length, total_duration. cbn.
    unfold Py.min2. destruct (Rlt_dec (1 * 0.1) 60.0); [| lra].
    apply int_between; [lia | lra]. }
  split; [exact Hlen |].
  assert (Hr : _generate_sonification (mkGen 1 0.1 220)
                 [mkCommit 1700000000 3 1] = Raise ValueError)
    by (apply render_raises; lia).
  split; [exact Hr |].
  unfold generate, generate_samples. rewrite Hr. reflexivity.
Qed.

(** C9: for the empty list of commits [generate] hands the encoder a
    buffer of exactly [sample_rate] samples, all equal to 0, and the
    encoding does not raise. *)
Theorem C9_empty_is_silence (self : MusicGenerator) :
  (0 <= sample_rate self)%Z ->
  exists buf,
    generate_samples self [] = Ok buf /\
    Z.of_nat (length buf) = sample_rate self /\
    Forall (fun s => s = 0) buf /\
    generate self [] = Ok (map (fun _ => (0%Z, 0%Z)) buf).
Proof.
  intros Hsr. exists (silence self 1.0).
  split; [reflexivity |].
  assert (Hlen : Py.int (1.0 * IZR (sample_rate self)) = sample_rate self).
  { replace (1.0 * IZR (sample_rate self)) with (IZR (sample_rate self))
      by lra.
    apply int_IZR. }
  split.
  { unfold silence. rewrite replicate_length, Hlen. lia. }
  split; [apply silence_zero |].
  unfold generate, generate_samples. cbn [bind].
  pose proof (silence_zero self 1.0) as Hz.
  induction (silence self 1.0) as [| s ss IH]; [reflexivity |].
  inversion Hz as [| ? ? Hs Hss]; subst.
  unfold _write_wav in *. cbn [comprehension map].
  assert (Hi : int_sample 0 = 0%Z).
  { unfold int_sample, Py.min2, Py.max2.
    destruct (Rlt_dec 0 1.0); [| lra].
    destruct (Rlt_dec (-1.0) 0); [| lra].
    replace (0 * 32767) with (IZR 0) by lra. apply int_IZR. }
  rewrite Hi. cbn [pack_h Z.leb Z.compare andb bind].
  rewrite (IH Hss). reflexivity.
Qed.

Lemma C9_empty_is_silence_witness :
  exists buf,
    generate_samples default_generator [] = Ok buf /\
    Z.of_nat (length buf) = 44100%Z /\
    Forall (fun s => s = 0) buf /\
    generate default_generator [] = Ok (map (fun _ => (0%Z, 0%Z)) buf).
Proof.
  apply (C9_empty_is_silence default_generator). simpl. lia.
Defined.

(** ** Encoding *)

Lemma clamp_unit (sample : R) :
  Py.max2 (-1.0) (Py.min2 1.0 sample) = Rmax (-1) (Rmin 1 sample) /\
  -1 <= Rmax (-1) (Rmin 1 sample) <= 1.
Proof.
  rewrite max2_Rmax, min2_Rmin.
  replace (-1.0) with (-1) by lra. replace 1.0 with 1 by lra.
  split; [reflexivity |].
  unfold Rmax, Rmin.
  destruct (Rle_dec 1 sample);
    repeat match goal with
    | |- context [Rle_dec ?a ?b] => destruct (Rle_dec a b)
    end; lra.
Qed.


Lemma int_symmetric_bounds (x : R) (n : Z) :
  - IZR n <= x <= IZR n -> (- n <= Py.int x <= n)%Z.
Proof.
  intros [Hlo Hhi]. destruct (Rle_dec 0 x) as [Hx | Hx].
  - pose proof (int_bounds x n (conj Hx Hhi)). lia.
  - unfold Py.int. destruct (Rle_dec 0 x); [contradiction |].
    assert (H : 0 <= - x <= IZR n) by lra.
    apply int_bounds in H. rewrite int_nonneg in H by lra. lia.
Qed.




(** ** Placement and bounds of the writes *)





Lemma derive_example :
  derive (mkGen 17 0.1 220) [mkCommit 0 1 1; mkCommit 5 0 2]
  = Ok (mkScalars 0 5 3 2).
Proof.
  unfold derive, total_duration. cbn.
  assert (E : Py.int (Py.min2 60.0 (2 * 0.1) * 17) = 3%Z).
  { unfold Py.min2. destruct (Rlt_dec (2 * 0.1) 60.0); [| lra].
    apply int_between; [lia | lra]. }
  rewrite E. reflexivity.
Qed.


(** ** Events that share a timestamp *)

Lemma contribution_silent (self : MusicGenerator) (sc : scalars)
  (c : commit) (j : Z) :
  sound sc -> activity c = 0%Z -> contribution self sc c j = 0.
Proof.
  intros Hsound Hact. unfold contribution.
  match goal with |- (if ?b then _ else _) = _ => destruct b end;
    [| reflexivity].
  rewrite (volume_total sc Hsound). cbn [value]. rewrite Hact.
  assert (Hv : Py.min2 1.0 (0 / IZR (max_activity sc) * 0.5) = 0).
  { unfold Py.min2. unfold Rdiv. rewrite !Rmult_0_l.
    destruct (Rlt_dec 0 1.0); [reflexivity | lra]. }
  rewrite Hv. unfold note_value.
  destruct (Py.truediv _ _) as [t |]; [| reflexivity]. cbn [bind].
  destruct (_adsr_envelope _ _) as [e |]; [| reflexivity].
  cbn [bind value]. ring.
Qed.

Lemma mix_silent (self : MusicGenerator) (sc : scalars)
  (commits : list commit) (audio : list R) :
  sound sc -> Forall (placed sc) commits ->
  Forall (fun c => activity c = 0%Z) commits ->
  length audio = Z.to_nat (total_samples sc) ->
  mix_commits self sc commits audio = Ok audio.
Proof.
  intros Hsound Hp Hz Hlen.
  rewrite (mix_commits_ok self sc Hsound commits Hp audio Hlen).
  f_equal. apply add_from_zero. intros k _.
  induction Hz as [| c cs Hc Hcs IH]; [reflexivity |].
  cbn [total_contribution fold_right].
  rewrite contribution_silent by assumption.
  inversion Hp; subst. unfold total_contribution in IH.
  rewrite IH by assumption. lra.
Qed.



Lemma peak_double (l : list R) : peak (map (Rmult 2) l) = 2 * peak l.
Proof.
  unfold peak. destruct l as [| x xs]; [cbn; lra |].
  cbn [map Py.max_R value].
  destruct (fold_max2_spec (map Rabs (map (Rmult 2) xs)) (Rabs (2 * x)))
    as [Hin2 Hub2].
  destruct (fold_max2_spec (map Rabs xs) (Rabs x)) as [Hin1 Hub1].
  set (m2 := fold_left Py.max2 (map Rabs (map (Rmult 2) xs)) (Rabs (2 * x)))
    in *.
  set (m1 := fold_left Py.max2 (map Rabs xs) (Rabs x)) in *.
  change (Rabs (2 * x) :: map Rabs (map (Rmult 2) xs))
    with (map Rabs (map (Rmult 2) (x :: xs))) in Hin2, Hub2.
  change (Rabs x :: map Rabs xs) with (map Rabs (x :: xs)) in Hin1, Hub1.
  rewrite map_map in Hin2, Hub2.
  rewrite Forall_map in Hub1, Hub2. rewrite Forall_forall in Hub1, Hub2.
  apply in_map_iff in Hin1, Hin2.
  destruct Hin1 as (y1 & Hy1 & Hy1in), Hin2 as (y2 & Hy2 & Hy2in).
  assert (Hscale : forall y, Rabs (2 * y) = 2 * Rabs y).
  { intros y. rewrite Rabs_mult, (Rabs_right 2) by lra. reflexivity. }
  apply Rle_antisym.
  - rewrite <- Hy2, Hscale. specialize (Hub1 y2 Hy2in). lra.
  - specialize (Hub2 y1 Hy1in). cbv beta in Hub2.
    rewrite Hscale, Hy1 in Hub2. exact Hub2.
Qed.

Lemma add_from_double (g : Z -> R) (j : Z) (audio : list R) :
  Forall (fun s => s = 0) audio ->
  add_from (fun k => g k + g k) j audio =
  map (Rmult 2) (add_from g j audio).
Proof.
  intros Hz. revert j.
  induction Hz as [| x xs Hx Hxs IH]; intros j; [reflexivity |].
  cbn [add_from map]. rewrite IH. f_equal. subst x. ring.
Qed.








(** ** Order of the commits *)

Lemma total_contribution_perm (self : MusicGenerator) (sc : scalars)
  (l l' : list commit) (j : Z) :
  Permutation l l' ->
  total_contribution self sc l j = total_contribution self sc l' j.
Proof.
  unfold total_contribution.
  induction 1 as [| x l l' _ IH | x y l | l l' l'' _ IH1 _ IH2];
    cbn [fold_right].
  - reflexivity.
  - now rewrite IH.
  - ring.
  - now rewrite IH1.
Qed.

Lemma mixed_perm (self : MusicGenerator) (l l' : list commit) :
  Permutation l l' -> mixed self l = mixed self l'.
Proof.
  intros HP. destruct l as [| c cs].
  - apply Permutation_nil in HP. now subst l'.
  - destruct l' as [| c' cs'].
    + symmetry in HP. now apply Permutation_nil in HP.
    + destruct (mixed_ok self c cs) as (sc & Hsc & _ & _ & _ & Hm).
      destruct (mixed_ok self c' cs') as (sc' & Hsc' & _ & _ & _ & Hm').
      rewrite (derive_perm self _ _ HP) in Hsc.
      assert (sc' = sc) by congruence. subst sc'.
      rewrite Hm, Hm'. f_equal. apply add_from_ext. intros k _.
      now apply total_contribution_perm.
Qed.

(** C10: the render does not depend on the order of the commits.  For
    a permutation of the list the derived scalars and the total
    duration are the same, the sum of the per-commit contributions at
    every index is the same, and so are the mixed buffer, the
    normalised buffer and the samples handed to the encoder; the mixed
    buffer is, index by index, the sum of the contributions. *)
Theorem C10_order_independent (self : MusicGenerator) (l l' : list commit) :
  Permutation l l' ->
  derive self l = derive self l' /\
  total_duration self l = total_duration self l' /\
  (forall sc j,
     total_contribution self sc l j = total_contribution self sc l' j) /\
  (forall sc, derive self l = Ok sc ->
     mixed self l =
       Ok (add_from (total_contribution self sc l) 0
             (Py.replicate 0.0 (total_samples sc)))) /\
  mixed self l = mixed self l' /\
  _generate_sonification self l = _generate_sonification self l' /\
  generate_samples self l = generate_samples self l'.
Proof.
  intros HP.
  assert (Hson : _generate_sonification self l
                 = _generate_sonification self l').
  { destruct l as [| c cs].
    - apply Permutation_nil in HP. now subst l'.
    - destruct l' as [| c' cs'].
      + symmetry in HP. now apply Permutation_nil in HP.
      + rewrite !sonification_unfold.
        now rewrite (mixed_perm self _ _ HP). }
  split; [now apply derive_perm |].
  split; [unfold total_duration; now rewrite (Permutation_length HP) |].
  split; [intros sc j; now apply total_contribution_perm |].
  split.
  { intros sc Hsc. destruct l as [| c cs]; [discriminate |].
    destruct (mixed_ok self c cs) as (sc' & Hsc' & _ & _ & _ & Hm).
    assert (sc' = sc) by congruence. now subst sc'. }
  split; [now apply mixed_perm |].
  split; [exact Hson |].
  unfold generate_samples. destruct l as [| c cs].
  - apply Permutation_nil in HP. now subst l'.
  - destruct l' as [| c' cs'].
    + symmetry in HP. now apply Permutation_nil in HP.
    + exact Hson.
Qed.

Lemma C10_order_independent_witness :
  _generate_sonification default_generator
    [mkCommit 1700000000 12 3; mkCommit 1700003600 0 7]
  = _generate_sonification default_generator
    [mkCommit 1700003600 0 7; mkCommit 1700000000 12 3].
Proof.
  apply (C10_order_independent default_generator
           [mkCommit 1700000000 12 3; mkCommit 1700003600 0 7]
           [mkCommit 1700003600 0 7; mkCommit 1700000000 12 3]).
  apply perm_swap.
Defined.

(** * Further properties of the sonifier *)

(** ** Range of the envelope and of the loudness *)

Lemma div_unit (x y : R) : 0 < y -> 0 <= x <= y -> 0 <= x / y <= 1.
Proof.
  intros Hy [H0 H1].
  assert (Hi : 0 < / y) by now apply Rinv_0_lt_compat.
  assert (Hone : y * / y = 1) by (apply Rinv_r; lra).
  unfold Rdiv. split; nra.
Qed.

Lemma envelope_unit_range (t d : R) :
  0 < d -> 0 <= t <= d ->
  exists v, _adsr_envelope t d = Ok v /\ 0 <= v <= 1 /\
    (d - release_time d <= t -> v <= 0.7).
Proof.
  intros Hd Ht. exists (envelope_spec t d).
  split; [now apply adsr_envelope_spec |].
  destruct (phase_times d Hd) as (Ha & Hdc & Hr & Hord).
  unfold attack_time, decay_time, release_time in *.
  rewrite !min2_Rmin in *. unfold envelope_spec.
  set (a := Rmin 0.01 (d * 0.1)) in *.
  set (dc := Rmin 0.02 (d * 0.2)) in *.
  set (r := Rmin 0.05 (d * 0.3)) in *.
  destruct (Rlt_dec t a).
  { pose proof (div_unit t a Ha). split; [lra | intros; lra]. }
  destruct (Rlt_dec t (a + dc)).
  { pose proof (div_unit (t - a) dc Hdc). split; [lra | intros; lra]. }
  destruct (Rlt_dec t (d - r)).
  { split; [lra | intros; lra]. }
  pose proof (div_unit (t - (d - r)) r Hr). split; [lra | intros; lra].
Qed.

(** Inside a note of duration [d > 0] the envelope never exceeds 1, is
    not negative up to the start of the release, and is at most the
    sustain level 0.7 from the start of the release on. *)
Theorem envelope_in_unit (t d : R) :
  0 < d -> 0 <= t <= d ->
  exists v, _adsr_envelope t d = Ok v /\ v <= 1 /\
    (t <= d - release_time d -> 0 <= v) /\
    (d - release_time d <= t -> v <= 0.7).
Proof.
  intros Hd Ht.
  destruct (envelope_unit_range t d Hd Ht) as (v & Hv & [H0 H1] & Hrel).
  exists v. repeat split; auto.
Qed.

Lemma envelope_in_unit_witness :
  exists v, _adsr_envelope 0.05 0.1 = Ok v /\ v <= 1 /\
    (0.05 <= 0.1 - release_time 0.1 -> 0 <= v) /\
    (0.1 - release_time 0.1 <= 0.05 -> v <= 0.7).
Proof.
  apply (envelope_in_unit 0.05 0.1); lra.
Defined.

Lemma derive_fields (self : MusicGenerator) (c : commit) (cs : list commit) :
  derive self (c :: cs) =
  Ok (mkScalars
        (fold_left Z.min (map timestamp cs) (timestamp c))
        (Py.or_Z (fold_left Z.max (map timestamp cs) (timestamp c)
                  - fold_left Z.min (map timestamp cs) (timestamp c)) 1)
        (buffer_length self (c :: cs))
        (Py.or_Z (fold_left Z.max (map activity cs) (activity c)) 1)).
Proof. reflexivity. Qed.

Lemma derive_sound (self : MusicGenerator) (c0 : commit)
  (cs : list commit) (sc : scalars) :
  derive self (c0 :: cs) = Ok sc ->
  sound sc /\ Forall (placed sc) (c0 :: cs) /\
  total_samples sc = buffer_length self (c0 :: cs).
Proof.
  intros Hsc.
  destruct (derive_ok self c0 cs) as (sc' & Hsc' & Hs & Hp & Ht).
  assert (sc' = sc) by congruence. subst sc'. auto.
Qed.

Lemma max_activity_bounds (self : MusicGenerator) (c0 : commit)
  (cs : list commit) (sc : scalars) :
  derive self (c0 :: cs) = Ok sc ->
  Forall (fun c => (0 <= activity c)%Z) (c0 :: cs) ->
  (0 < max_activity sc)%Z /\
  Forall (fun c => (activity c <= max_activity sc)%Z) (c0 :: cs) /\
  (forall c, In c (c0 :: cs) -> (0 < activity c)%Z ->
     (forall c', In c' (c0 :: cs) -> (activity c' <= activity c)%Z) ->
     max_activity sc = activity c).
Proof.
  intros Hsc Hnn. rewrite derive_fields in Hsc.
  injection Hsc as <-. cbn [max_activity].
  destruct (fold_max_spec (map activity cs) (activity c0)) as [Hin Hub].
  set (m := fold_left Z.max (map activity cs) (activity c0)) in *.
  change (activity c0 :: map activity cs)
    with (map activity (c0 :: cs)) in Hin, Hub.
  rewrite Forall_map in Hub. apply in_map_iff in Hin.
  destruct Hin as (cm & Hcm & Hcmin).
  rewrite Forall_forall in Hub, Hnn.
  assert (Hm : (0 <= m)%Z) by (rewrite <- Hcm; auto).
  unfold Py.or_Z. destruct (Z.eqb_spec m 0) as [E | N].
  - split; [lia |]. split.
    + apply Forall_forall. intros c Hc. specialize (Hub c Hc). lia.
    + intros c Hc Hpos _. specialize (Hub c Hc). lia.
  - split; [lia |]. split.
    + apply Forall_forall. exact Hub.
    + intros c Hc _ Hmax. specialize (Hub c Hc).
      specialize (Hmax cm Hcmin). lia.
Qed.

Lemma volume_bounds (self : MusicGenerator) (c0 : commit)
  (cs : list commit) (sc : scalars) (c : commit) :
  derive self (c0 :: cs) = Ok sc ->
  Forall (fun c => (0 <= activity c)%Z) (c0 :: cs) ->
  In c (c0 :: cs) ->
  exists v, volume sc c = Ok v /\
    v = IZR (activity c) / IZR (max_activity sc) * 0.5 /\
    0 <= v <= 0.5 /\
    (activity c = 0%Z -> v = 0) /\
    ((0 < activity c)%Z ->
     (forall c', In c' (c0 :: cs) -> (activity c' <= activity c)%Z) ->
     v = 0.5).
Proof.
  intros Hsc Hnn Hin.
  destruct (max_activity_bounds self c0 cs sc Hsc Hnn) as (Hpos & Hub & Hmax).
  rewrite Forall_forall in Hub, Hnn.
  specialize (Hub c Hin). specialize (Hnn c Hin). cbv beta in Hub, Hnn.
  assert (Hm : 0 < IZR (max_activity sc)) by now apply IZR_lt.
  assert (Hr : 0 <= IZR (activity c) / IZR (max_activity sc) <= 1).
  { apply div_unit; [assumption |]. apply IZR_le in Hub, Hnn. lra. }
  destruct (derive_sound self c0 cs sc Hsc) as (Hsound & _).
  exists (IZR (activity c) / IZR (max_activity sc) * 0.5).
  split.
  { rewrite (volume_total sc Hsound). f_equal.
    unfold Py.min2. destruct (Rlt_dec _ 1.0); [reflexivity | lra]. }
  split; [reflexivity |].
  split; [lra |].
  split.
  { intros E. rewrite E. unfold Rdiv. now rewrite !Rmult_0_l. }
  intros Hp Hall. rewrite (Hmax c Hin Hp Hall).
  replace (IZR (activity c) / IZR (activity c)) with 1; [lra |].
  field. apply not_0_IZR. lia.
Qed.

(** The loudness of a commit of the rendered list lies in [0, 0.5]
    when no commit has a negative activity, so the cap [min(1.0, ...)]
    never applies; the most active commit gets exactly 0.5 and a commit
    without changes gets 0. *)
Theorem volume_range (self : MusicGenerator) (c0 : commit)
  (cs : list commit) (sc : scalars) (c : commit) :
  derive self (c0 :: cs) = Ok sc ->
  Forall (fun c => (0 <= activity c)%Z) (c0 :: cs) ->
  In c (c0 :: cs) ->
  exists v, volume sc c = Ok v /\
    v = IZR (activity c) / IZR (max_activity sc) * 0.5 /\
    0 <= v <= 0.5 /\
    (activity c = 0%Z -> v = 0) /\
    ((0 < activity c)%Z ->
     (forall c', In c' (c0 :: cs) -> (activity c' <= activity c)%Z) ->
     v = 0.5).
Proof. apply volume_bounds. Qed.

Lemma volume_range_witness :
  exists v, volume (mkScalars 0 5 3 2) (mkCommit 5 0 2) = Ok v /\
    v = IZR (activity (mkCommit 5 0 2))
        / IZR (max_activity (mkScalars 0 5 3 2)) * 0.5 /\
    0 <= v <= 0.5 /\
    (activity (mkCommit 5 0 2) = 0%Z -> v = 0) /\
    ((0 < activity (mkCommit 5 0 2))%Z ->
     (forall c', In c' [mkCommit 0 1 1; mkCommit 5 0 2] ->
        (activity c' <= activity (mkCommit 5 0 2))%Z) ->
     v = 0.5).
Proof.
  apply (volume_range (mkGen 17 0.1 220) (mkCommit 0 1 1) [mkCommit 5 0 2]
           (mkScalars 0 5 3 2) (mkCommit 5 0 2) derive_example).
  - repeat constructor; cbn; lia.
  - right. left. reflexivity.
Defined.

(** ** Amplitude of a note and of the mix *)

Lemma harmonics_bound (x y z : R) :
  -1.4 <= 0 + sin x + 0.3 * sin y + 0.1 * sin z <= 1.4.
Proof.
  pose proof (SIN_bound x). pose proof (SIN_bound y).
  pose proof (SIN_bound z). lra.
Qed.

Lemma scaled_bound (s e v : R) :
  -1.4 <= s <= 1.4 -> 0 <= e <= 1 -> 0 <= v <= 0.5 ->
  Rabs (s * (e * v) * 0.3) <= 0.21.
Proof.
  intros Hs He Hv.
  assert (Hp : 0 <= e * v <= 0.5) by nra.
  set (p := e * v) in *.
  apply Rabs_le. split; nra.
Qed.

Lemma note_value_amplitude (self : MusicGenerator) (frequency vol : R)
  (i : Z) :
  (0 < sample_rate self)%Z -> 0 < duration_per_commit self ->
  0 <= vol <= 0.5 ->
  (0 <= i < note_samples self)%Z ->
  exists v, note_value self frequency vol i = Ok v /\
    Rabs v <= 0.21 /\ (i = 0%Z -> v = 0).
Proof.
  intros Hsr Hd Hvol Hi.
  assert (Hsr' : 0 < IZR (sample_rate self)) by now apply IZR_lt.
  set (t := IZR i / IZR (sample_rate self)).
  assert (Ht : 0 <= t < duration_per_commit self).
  { unfold note_samples in Hi.
    assert (Hprod : 0 <= duration_per_commit self * IZR (sample_rate self))
      by nra.
    rewrite int_nonneg in Hi by assumption.
    pose proof (Zfloor_bound
                  (duration_per_commit self * IZR (sample_rate self)))
      as [Hfl _].
    assert (Hi1 : IZR i + 1 <= IZR (Zfloor
                  (duration_per_commit self * IZR (sample_rate self)))).
    { rewrite <- plus_IZR. apply IZR_le. lia. }
    assert (Hi0 : 0 <= IZR i) by (apply IZR_le; lia).
    assert (Hinv : 0 < / IZR (sample_rate self))
      by now apply Rinv_0_lt_compat.
    assert (Hone : IZR (sample_rate self) * / IZR (sample_rate self) = 1)
      by (apply Rinv_r; lra).
    unfold t, Rdiv. split; nra. }
  destruct (envelope_unit_range t (duration_per_commit self) Hd)
    as (e & He & Hrange & _); [lra |].
  unfold note_value. rewrite truediv_ok by lra. cbn [bind].
  fold t. rewrite He. cbn [bind].
  eexists. split; [reflexivity |]. split.
  - apply scaled_bound; try assumption. apply harmonics_bound.
  - intros Hi0.
    assert (Ht0 : t = 0) by (unfold t; rewrite Hi0; unfold Rdiv; ring).
    rewrite Ht0, !Rmult_0_r, sin_0. lra.
Qed.

(** With a positive configuration every value the inner loop adds to
    the buffer is at most 0.21 in absolute value when the loudness is
    at most 0.5, and the first sample of every note is exactly 0. *)
Theorem note_value_bound (self : MusicGenerator) (frequency vol : R)
  (i : Z) :
  (0 < sample_rate self)%Z -> 0 < duration_per_commit self ->
  0 <= vol <= 0.5 ->
  (0 <= i < note_samples self)%Z ->
  exists v, note_value self frequency vol i = Ok v /\
    Rabs v <= 0.21 /\ (i = 0%Z -> v = 0).
Proof. apply note_value_amplitude. Qed.

Lemma note_value_bound_witness :
  exists v, note_value default_generator 440 0.5 100 = Ok v /\
    Rabs v <= 0.21 /\ (100%Z = 0%Z -> v = 0).
Proof.
  apply (note_value_bound default_generator 440 0.5 100).
  - cbn. lia.
  - cbn. lra.
  - lra.
  - unfold note_samples. cbn.
    rewrite (int_between 4410); [lia | lia | lra].
Defined.

Lemma contribution_bound (self : MusicGenerator) (c0 : commit)
  (cs : list commit) (sc : scalars) (c : commit) (j : Z) :
  (0 < sample_rate self)%Z -> 0 < duration_per_commit self ->
  derive self (c0 :: cs) = Ok sc ->
  Forall (fun c => (0 <= activity c)%Z) (c0 :: cs) ->
  In c (c0 :: cs) ->
  Rabs (contribution self sc c j) <= 0.21.
Proof.
  intros Hsr Hd Hsc Hnn Hin. unfold contribution.
  destruct (volume_bounds self c0 cs sc c Hsc Hnn Hin)
    as (v & Hv & _ & Hvr & _).
  rewrite Hv. cbn [value].
  set (start := value 0%Z (start_sample sc c)).
  destruct (Z.leb_spec start j) as [Hlo | Hlo]; cbn [andb];
    [| rewrite Rabs_R0; lra].
  destruct (Z.ltb_spec j (start + note_samples self)) as [Hhi | Hhi];
    [| rewrite Rabs_R0; lra].
  destruct (note_value_amplitude self
              (base_frequency self * value 0 (frequency_multiplier c))
              v (j - start) Hsr Hd Hvr) as (x & Hx & Hb & _); [lia |].
  rewrite Hx. exact Hb.
Qed.

Lemma total_contribution_bound (self : MusicGenerator) (sc : scalars)
  (l : list commit) (j : Z) (b : R) :
  Forall (fun c => Rabs (contribution self sc c j) <= b) l ->
  Rabs (total_contribution self sc l j) <= b * INR (length l).
Proof.
  induction 1 as [| c cs Hc Hcs IH].
  - cbn. rewrite Rabs_R0. lra.
  - cbn [total_contribution fold_right length]. rewrite S_INR.
    unfold total_contribution in IH.
    eapply Rle_trans; [apply Rabs_triang |]. lra.
Qed.

Lemma add_from_bound (g : Z -> R) (b : R) (k : Z) (audio : list R) :
  Forall (fun s => s = 0) audio ->
  (forall j, Rabs (g j) <= b) ->
  Forall (fun s => Rabs s <= b) (add_from g k audio).
Proof.
  intros Hz Hg. revert k.
  induction Hz as [| x xs Hx Hxs IH]; intros k; cbn [add_from].
  - constructor.
  - constructor; [| apply IH]. subst x. rewrite Rplus_0_l. apply Hg.
Qed.

Lemma replicate_zero (n : Z) : Forall (fun s => s = 0) (Py.replicate 0.0 n).
Proof.
  apply Forall_forall. intros s Hs. apply repeat_spec in Hs. lra.
Qed.

Lemma mixed_bounded (self : MusicGenerator) (c0 : commit)
  (cs : list commit) :
  (0 < sample_rate self)%Z -> 0 < duration_per_commit self ->
  Forall (fun c => (0 <= activity c)%Z) (c0 :: cs) ->
  exists buf, mixed self (c0 :: cs) = Ok buf /\
    Z.of_nat (length buf) = Z.max 0 (buffer_length self (c0 :: cs)) /\
    Forall (fun s => Rabs s <= 0.21 * INR (length (c0 :: cs))) buf.
Proof.
  intros Hsr Hd Hnn.
  destruct (mixed_ok self c0 cs) as (sc & Hsc & _ & _ & Htot & Hm).
  eexists. split; [exact Hm |]. split.
  - rewrite add_from_length, replicate_length, Htot. lia.
  - apply add_from_bound; [apply replicate_zero |].
    intros j. apply total_contribution_bound.
    apply Forall_forall. intros c Hc.
    now apply (contribution_bound self c0 cs sc c j).
Qed.

(** With a positive configuration and no negative activity the mixing
    loop returns a buffer in which every sample is at most 0.21 times
    the number of commits in absolute value: each note is scaled so
    that it alone stays well under full scale. *)
Theorem mixed_amplitude_bound (self : MusicGenerator) (c0 : commit)
  (cs : list commit) :
  (0 < sample_rate self)%Z -> 0 < duration_per_commit self ->
  Forall (fun c => (0 <= activity c)%Z) (c0 :: cs) ->
  exists buf, mixed self (c0 :: cs) = Ok buf /\
    Z.of_nat (length buf) = Z.max 0 (buffer_length self (c0 :: cs)) /\
    Forall (fun s => Rabs s <= 0.21 * INR (length (c0 :: cs))) buf.
Proof. apply mixed_bounded. Qed.

Lemma mixed_amplitude_bound_witness :
  exists buf,
    mixed default_generator
      [mkCommit 1700000000 12 3; mkCommit 1700003600 0 7] = Ok buf /\
    Z.of_nat (length buf) =
      Z.max 0 (buffer_length default_generator
                 [mkCommit 1700000000 12 3; mkCommit 1700003600 0 7]) /\
    Forall (fun s => Rabs s <= 0.21 * INR 2) buf.
Proof.
  apply (mixed_amplitude_bound default_generator
           (mkCommit 1700000000 12 3) [mkCommit 1700003600 0 7]).
  - cbn. lia.
  - cbn. lra.
  - repeat constructor; cbn; lia.
Defined.

Lemma normalize_noop (audio : list R) :
  audio <> [] -> Forall (fun s => Rabs s <= 1) audio ->
  normalize audio = Ok audio.
Proof.
  intros Hne Hall.
  destruct (normalize_ok audio Hne) as (peak & _ & Hin & _ & Hn).
  rewrite Hn. apply in_map_iff in Hin. destruct Hin as (x & <- & Hx).
  rewrite Forall_forall in Hall. specialize (Hall x Hx). cbv beta in Hall.
  destruct (Rlt_dec 1 (Rabs x)); [lra | reflexivity].
Qed.

(** A render of at most four commits is never rescaled: with a positive
    configuration, no negative activity and at least one sample to
    allocate, the returned buffer is the mixed buffer itself. *)
Theorem small_render_unscaled (self : MusicGenerator) (c0 : commit)
  (cs : list commit) :
  (0 < sample_rate self)%Z -> 0 < duration_per_commit self ->
  Forall (fun c => (0 <= activity c)%Z) (c0 :: cs) ->
  (length (c0 :: cs) <= 4)%nat ->
  (1 <= buffer_length self (c0 :: cs))%Z ->
  exists buf, mixed self (c0 :: cs) = Ok buf /\
    _generate_sonification self (c0 :: cs) = Ok buf.
Proof.
  intros Hsr Hd Hnn Hlen Hbuf.
  destruct (mixed_bounded self c0 cs Hsr Hd Hnn)
    as (buf & Hm & Hl & Hb).
  exists buf. split; [exact Hm |].
  rewrite sonification_unfold, Hm. cbn [bind].
  apply normalize_noop.
  - intros E. rewrite E in Hl. cbn [length] in Hl. lia.
  - eapply Forall_impl; [| exact Hb]. intros s Hs. cbv beta in Hs.
    assert (Hn : INR (length (c0 :: cs)) <= 4).
    { replace 4 with (INR 4) by (simpl; lra). apply le_INR. exact Hlen. }
    lra.
Qed.

Lemma small_render_unscaled_witness :
  exists buf,
    mixed default_generator
      [mkCommit 1700000000 12 3; mkCommit 1700003600 0 7] = Ok buf /\
    _generate_sonification default_generator
      [mkCommit 1700000000 12 3; mkCommit 1700003600 0 7] = Ok buf.
Proof.
  apply (small_render_unscaled default_generator
           (mkCommit 1700000000 12 3) [mkCommit 1700003600 0 7]).
  - cbn. lia.
  - cbn. lra.
  - repeat constructor; cbn; lia.
  - cbn. lia.
  - unfold buffer_length, total_duration. cbn.
    unfold Py.min2. destruct (Rlt_dec (2 * 0.1) 60.0); [| lra].
    rewrite (int_between 8820); [lia | lia | lra].
Defined.

(** ** Order of the notes in time *)

Lemma derive_span (self : MusicGenerator) (c0 : commit) (cs : list commit)
  (sc : scalars) :
  derive self (c0 :: cs) = Ok sc ->
  (exists cl, In cl (c0 :: cs) /\ timestamp cl = min_time sc) /\
  (forall c, In c (c0 :: cs) -> (min_time sc <= timestamp c)%Z) /\
  (exists ch, In ch (c0 :: cs) /\
     (forall c, In c (c0 :: cs) -> (timestamp c <= timestamp ch)%Z) /\
     time_range sc = Py.or_Z (timestamp ch - min_time sc) 1).
Proof.
  intros Hsc. rewrite derive_fields in Hsc. injection Hsc as <-.
  cbn [min_time time_range].
  destruct (fold_min_spec (map timestamp cs) (timestamp c0)) as [Hlin Hlo].
  destruct (fold_max_spec (map timestamp cs) (timestamp c0)) as [Hhin Hhi].
  set (lo := fold_left Z.min (map timestamp cs) (timestamp c0)) in *.
  set (hi := fold_left Z.max (map timestamp cs) (timestamp c0)) in *.
  change (timestamp c0 :: map timestamp cs)
    with (map timestamp (c0 :: cs)) in Hlin, Hlo, Hhin, Hhi.
  rewrite Forall_map in Hlo, Hhi. rewrite Forall_forall in Hlo, Hhi.
  apply in_map_iff in Hlin, Hhin.
  destruct Hlin as (cl & Hcl & Hclin), Hhin as (ch & Hch & Hchin).
  split; [exists cl; auto |].
  split; [exact Hlo |].
  exists ch. split; [exact Hchin |]. split.
  - intros c Hc. rewrite Hch. now apply Hhi.
  - now rewrite Hch.
Qed.

Lemma start_sample_eq (sc : scalars) (c : commit) :
  sound sc ->
  start_sample sc c =
  Ok (Py.int (IZR (timestamp c - min_time sc) / IZR (time_range sc)
              * IZR (total_samples sc))).
Proof.
  intros [Hr _]. unfold start_sample, t_norm.
  rewrite truediv_ok by (apply not_0_IZR; lia). reflexivity.
Qed.

(** Temporal order is preserved: in a render with a buffer of
    non-negative length, a commit that is not later than another does
    not start later in the buffer, and the earliest commit starts at
    sample 0. *)
Theorem start_sample_monotone (self : MusicGenerator) (c0 : commit)
  (cs : list commit) (sc : scalars) (c1 c2 : commit) :
  derive self (c0 :: cs) = Ok sc ->
  (0 <= total_samples sc)%Z ->
  In c1 (c0 :: cs) -> In c2 (c0 :: cs) ->
  (timestamp c1 <= timestamp c2)%Z ->
  exists s1 s2,
    start_sample sc c1 = Ok s1 /\ start_sample sc c2 = Ok s2 /\
    (0 <= s1 <= s2)%Z /\ (s2 <= total_samples sc)%Z /\
    ((forall c, In c (c0 :: cs) -> (timestamp c1 <= timestamp c)%Z) ->
     s1 = 0%Z).
Proof.
  intros Hsc Htot Hin1 Hin2 Hle.
  destruct (derive_sound self c0 cs sc Hsc) as (Hsound & Hplaced & _).
  destruct (derive_span self c0 cs sc Hsc) as ((cl & Hclin & Hcl) & Hlo & _).
  rewrite Forall_forall in Hplaced.
  pose proof (Hplaced c1 Hin1) as Hp1. pose proof (Hplaced c2 Hin2) as Hp2.
  destruct (start_sample_bounds sc Hsound c1 Hp1) as (s1 & Hs1 & Hb1 & _).
  destruct (start_sample_bounds sc Hsound c2 Hp2) as (s2 & Hs2 & Hb2 & _).
  exists s1, s2. split; [exact Hs1 |]. split; [exact Hs2 |].
  specialize (Hb1 Htot). specialize (Hb2 Htot).
  rewrite start_sample_eq in Hs1, Hs2 by assumption.
  injection Hs1 as Hs1. injection Hs2 as Hs2.
  destruct Hsound as [Hr _]. unfold placed in Hp1, Hp2.
  assert (Hr' : 0 < IZR (time_range sc)) by now apply IZR_lt.
  assert (Hinv : 0 < / IZR (time_range sc)) by now apply Rinv_0_lt_compat.
  assert (HT : 0 <= IZR (total_samples sc)) by now apply IZR_le.
  assert (H1 : 0 <= IZR (timestamp c1 - min_time sc)) by (apply IZR_le; lia).
  assert (H12 : IZR (timestamp c1 - min_time sc)
                <= IZR (timestamp c2 - min_time sc)) by (apply IZR_le; lia).
  split; [split; [lia |] |].
  - rewrite <- Hs1, <- Hs2.
    rewrite !int_nonneg.
    + apply Zfloor_le. unfold Rdiv.
      apply Rmult_le_compat_r; [assumption |].
      apply Rmult_le_compat_r; lra.
    + apply Rmult_le_pos; [| assumption].
      apply Rmult_le_pos; lra.
    + apply Rmult_le_pos; [| assumption].
      apply Rmult_le_pos; lra.
  - split; [lia |]. intros Hfirst.
    assert (E : (timestamp c1 - min_time sc = 0)%Z).
    { specialize (Hfirst cl Hclin). specialize (Hlo c1 Hin1). lia. }
    rewrite <- Hs1, E. unfold Rdiv. rewrite !Rmult_0_l.
    apply (int_IZR 0).
Qed.

Lemma start_sample_monotone_witness :
  exists s1 s2,
    start_sample (mkScalars 0 5 3 2) (mkCommit 0 1 1) = Ok s1 /\
    start_sample (mkScalars 0 5 3 2) (mkCommit 5 0 2) = Ok s2 /\
    (0 <= s1 <= s2)%Z /\ (s2 <= 3)%Z /\
    ((forall c, In c [mkCommit 0 1 1; mkCommit 5 0 2] ->
        (timestamp (mkCommit 0 1 1) <= timestamp c)%Z) ->
     s1 = 0%Z).
Proof.
  apply (start_sample_monotone (mkGen 17 0.1 220) (mkCommit 0 1 1)
           [mkCommit 5 0 2] (mkScalars 0 5 3 2) (mkCommit 0 1 1)
           (mkCommit 5 0 2) derive_example).
  - cbn. lia.
  - left. reflexivity.
  - right. left. reflexivity.
  - cbn. lia.
Defined.

(** The latest commit is not heard: when the timestamps are not all
    equal, a commit with the greatest timestamp starts exactly at the
    end of the buffer, so the inner loop breaks at once and the buffer
    is returned as it was. *)
Theorem latest_commit_dropped (self : MusicGenerator) (c0 : commit)
  (cs : list commit) (sc : scalars) (c c' : commit) (audio : list R) :
  derive self (c0 :: cs) = Ok sc ->
  In c (c0 :: cs) -> In c' (c0 :: cs) ->
  (forall x, In x (c0 :: cs) -> (timestamp x <= timestamp c)%Z) ->
  (timestamp c' < timestamp c)%Z ->
  length audio = Z.to_nat (total_samples sc) ->
  t_norm sc c = Ok 1 /\
  start_sample sc c = Ok (total_samples sc) /\
  written sc (total_samples sc) (Py.range (note_samples self)) = [] /\
  mix_commit self sc audio c = Ok audio.
Proof.
  intros Hsc Hin Hin' Hmax Hlt Hlen.
  destruct (derive_sound self c0 cs sc Hsc) as (Hsound & Hplaced & _).
  destruct (derive_span self c0 cs sc Hsc)
    as (_ & Hlo & (ch & Hchin & Hch & Hrange)).
  assert (Hts : timestamp ch = timestamp c).
  { specialize (Hmax ch Hchin). specialize (Hch c Hin). lia. }
  assert (Hr : time_range sc = (timestamp c - min_time sc)%Z).
  { rewrite Hrange, Hts. unfold Py.or_Z.
    specialize (Hlo c' Hin').
    destruct (Z.eqb_spec (timestamp c - min_time sc) 0); [lia | reflexivity]. }
  assert (Hnz : IZR (time_range sc) <> 0).
  { destruct Hsound as [H _]. apply not_0_IZR. lia. }
  assert (Ht : t_norm sc c = Ok 1).
  { unfold t_norm. rewrite truediv_ok by assumption.
    rewrite <- Hr. f_equal. now field. }
  assert (Hs : start_sample sc c = Ok (total_samples sc)).
  { unfold start_sample. rewrite Ht. cbn [bind]. f_equal.
    rewrite Rmult_1_l. apply int_IZR. }
  split; [exact Ht |]. split; [exact Hs |]. split.
  - unfold Py.range. destruct (Z.to_nat (note_samples self)); [reflexivity |].
    cbn [seq map written]. rewrite Z.geb_leb.
    destruct (Z.leb_spec (total_samples sc) (total_samples sc + Z.of_nat 0));
      [reflexivity | lia].
  - rewrite Forall_forall in Hplaced.
    rewrite (mix_commit_ok self sc Hsound audio c (Hplaced c Hin) Hlen).
    f_equal. apply add_from_zero. intros k Hk.
    unfold contribution. rewrite Hs. cbn [value].
    destruct (Z.leb_spec (total_samples sc) k); [lia | reflexivity].
Qed.

Lemma latest_commit_dropped_witness :
  t_norm (mkScalars 0 5 3 2) (mkCommit 5 0 2) = Ok 1 /\
  start_sample (mkScalars 0 5 3 2) (mkCommit 5 0 2) = Ok 3%Z /\
  written (mkScalars 0 5 3 2) 3 (Py.range (note_samples (mkGen 17 0.1 220)))
    = [] /\
  mix_commit (mkGen 17 0.1 220) (mkScalars 0 5 3 2) [0.3; 0.2; 0.1]
    (mkCommit 5 0 2) = Ok [0.3; 0.2; 0.1].
Proof.
  apply (latest_commit_dropped (mkGen 17 0.1 220) (mkCommit 0 1 1)
           [mkCommit 5 0 2] (mkScalars 0 5 3 2) (mkCommit 5 0 2)
           (mkCommit 0 1 1) [0.3; 0.2; 0.1] derive_example).
  - right. left. reflexivity.
  - left. reflexivity.
  - intros x [<- | [<- | []]]; cbn; lia.
  - cbn. lia.
  - reflexivity.
Defined.

(** ** Size of the buffer *)

(** The render is capped at 60 seconds: with a positive configuration
    the buffer never has more than [60 * sample_rate] samples, and it
    has exactly that many once the commits would fill 60 seconds or
    more. *)
Theorem buffer_length_capped (self : MusicGenerator)
  (commits : list commit) :
  (0 < sample_rate self)%Z -> 0 < duration_per_commit self ->
  let n := IZR (Z.of_nat (length commits)) in
  (0 <= buffer_length self commits <= 60 * sample_rate self)%Z /\
  (60 <= n * duration_per_commit self ->
     buffer_length self commits = (60 * sample_rate self)%Z).
Proof.
  intros Hsr Hd n.
  assert (Hsr' : 0 < IZR (sample_rate self)) by now apply IZR_lt.
  assert (Hn : 0 <= n) by (apply IZR_le; lia).
  unfold buffer_length, total_duration. fold n. rewrite min2_Rmin.
  replace 60.0 with 60 by lra.
  assert (Hmin : 0 <= Rmin 60 (n * duration_per_commit self) <= 60).
  { split; [apply Rmin_glb; nra | apply Rmin_l]. }
  split.
  - apply int_bounds. rewrite mult_IZR. split; nra.
  - intros Hfull. rewrite Rmin_left by assumption.
    rewrite <- mult_IZR. apply int_IZR.
Qed.

Lemma buffer_length_capped_witness :
  (0 <= buffer_length default_generator
          [mkCommit 1700000000 12 3; mkCommit 1700003600 0 7]
     <= 60 * 44100)%Z.
Proof.
  apply (buffer_length_capped default_generator
           [mkCommit 1700000000 12 3; mkCommit 1700003600 0 7]).
  - cbn. lia.
  - cbn. lra.
Defined.

(** ** Normalisation, again *)

Lemma peak_div (p : R) (l : list R) :
  0 < p -> peak (map (fun s => s / p) l) = peak l / p.
Proof.
  intros Hp. unfold peak. destruct l as [| x xs].
  { cbn. unfold Rdiv. now rewrite Rmult_0_l. }
  cbn [map Py.max_R value].
  destruct (fold_max2_spec (map Rabs (map (fun s => s / p) xs))
              (Rabs (x / p))) as [Hin2 Hub2].
  destruct (fold_max2_spec (map Rabs xs) (Rabs x)) as [Hin1 Hub1].
  set (m2 := fold_left Py.max2 (map Rabs (map (fun s => s / p) xs))
               (Rabs (x / p))) in *.
  set (m1 := fold_left Py.max2 (map Rabs xs) (Rabs x)) in *.
  change (Rabs (x / p) :: map Rabs (map (fun s => s / p) xs))
    with (map Rabs (map (fun s => s / p) (x :: xs))) in Hin2, Hub2.
  change (Rabs x :: map Rabs xs) with (map Rabs (x :: xs)) in Hin1, Hub1.
  rewrite map_map in Hin2, Hub2.
  rewrite Forall_map in Hub1, Hub2. rewrite Forall_forall in Hub1, Hub2.
  apply in_map_iff in Hin1, Hin2.
  destruct Hin1 as (y1 & Hy1 & Hy1in), Hin2 as (y2 & Hy2 & Hy2in).
  assert (Hinv : 0 < / p) by now apply Rinv_0_lt_compat.
  assert (Hscale : forall y, Rabs (y / p) = Rabs y / p).
  { intros y. unfold Rdiv. rewrite Rabs_mult, (Rabs_right (/ p)) by lra.
    reflexivity. }
  apply Rle_antisym.
  - rewrite <- Hy2, Hscale. specialize (Hub1 y2 Hy2in). cbv beta in Hub1.
    unfold Rdiv. apply Rmult_le_compat_r; lra.
  - specialize (Hub2 y1 Hy1in). cbv beta in Hub2.
    rewrite Hscale, Hy1 in Hub2. exact Hub2.
Qed.

(** Normalising twice changes nothing more: the buffer a pass returns
    has a peak of at most 1, exactly 1 when the pass rescaled, and a
    second pass returns it unchanged; a buffer whose peak is at most 1
    is returned as it is. *)
Theorem normalize_idempotent (audio buf : list R) :
  normalize audio = Ok buf ->
  normalize buf = Ok buf /\
  peak buf <= 1 /\
  (1 < peak audio -> peak buf = 1) /\
  (peak audio <= 1 -> buf = audio).
Proof.
  intros H.
  assert (Hne : audio <> []) by (intros ->; discriminate).
  destruct (normalize_range audio buf H) as [Hu Hl].
  assert (Hne' : buf <> []).
  { intros ->. destruct audio; [congruence | discriminate]. }
  assert (Hb : Forall (fun s => Rabs s <= 1) buf).
  { eapply Forall_impl; [| exact Hu]. intros s [H0 H1]. now apply Rabs_le. }
  destruct (normalize_ok audio Hne) as (p & Hp & _ & _ & Hn).
  destruct (normalize_ok buf Hne') as (q & Hq & Hqin & _ & _).
  assert (Hpeak : peak audio = p) by (unfold peak; now rewrite Hp).
  assert (Hpeak' : peak buf = q) by (unfold peak; now rewrite Hq).
  split; [now apply normalize_noop |].
  split.
  { rewrite Hpeak'. apply in_map_iff in Hqin. destruct Hqin as (x & <- & Hx).
    rewrite Forall_forall in Hb. now apply Hb. }
  rewrite Hn in H. rewrite Hpeak. split; intros Hcmp.
  - destruct (Rlt_dec 1 p); [| lra].
    assert (E : buf = map (fun s => s / p) audio) by congruence.
    rewrite E, peak_div, Hpeak by lra. field. lra.
  - destruct (Rlt_dec 1 p); [lra | congruence].
Qed.

Lemma normalize_idempotent_witness :
  normalize [2; -4] = Ok [2 / 4; -4 / 4] /\
  normalize [2 / 4; -4 / 4] = Ok [2 / 4; -4 / 4].
Proof.
  assert (H : normalize [2; -4] = Ok [2 / 4; -4 / 4]).
  { unfold normalize. cbn [map Py.max_R fold_left bind].
    assert (E : Py.max2 (Rabs 2) (Rabs (-4)) = 4).
    { rewrite (Rabs_right 2) by lra. rewrite (Rabs_left (-4)) by lra.
      unfold Py.max2. destruct (Rlt_dec 2 (- -4)); lra. }
    rewrite E. unfold Py.or_R.
    destruct (Req_dec_T 4 0); [lra |].
    destruct (Rlt_dec 1.0 4); [| lra].
    cbn [comprehension]. rewrite !truediv_ok by lra. reflexivity. }
  split; [exact H |].
  apply (normalize_idempotent [2; -4] [2 / 4; -4 / 4] H).
Defined.

(** ** Encoding of a whole buffer and outcome of [generate] *)

Lemma int_sample_range (sample : R) :
  (-32767 <= int_sample sample <= 32767)%Z.
Proof.
  destruct (clamp_unit sample) as [Hc Hu].
  unfold int_sample. rewrite Hc.
  apply (int_symmetric_bounds _ 32767). lra.
Qed.

Lemma write_wav_frames (samples : list R) :
  _write_wav samples =
    Ok (map (fun s => ((int_sample s mod 256)%Z,
                       ((int_sample s / 256) mod 256)%Z)) samples) /\
  Forall (fun s =>
    let lo := (int_sample s mod 256)%Z in
    let hi := ((int_sample s / 256) mod 256)%Z in
    (0 <= lo < 256)%Z /\ (0 <= hi < 256)%Z /\
    (if (hi <? 128)%Z then lo + 256 * hi else lo + 256 * hi - 65536)%Z
    = int_sample s) samples.
Proof.
  split.
  - unfold _write_wav. induction samples as [| s ss IH]; [reflexivity |].
    cbn [comprehension map]. unfold pack_h at 1.
    pose proof (int_sample_range s) as Hr.
    destruct (Z.leb_spec (-32768) (int_sample s)); [| lia].
    destruct (Z.leb_spec (int_sample s) 32767); [| lia].
    cbn [andb bind]. rewrite IH. reflexivity.
  - apply Forall_forall. intros s _. cbv zeta.
    pose proof (int_sample_range s) as Hr.
    set (x := int_sample s) in *.
    pose proof (Z.mod_pos_bound x 256 ltac:(lia)) as Hlo.
    pose proof (Z.mod_pos_bound (x / 256) 256 ltac:(lia)) as Hhi.
    split; [exact Hlo |]. split; [exact Hhi |].
    pose proof (Z.div_mod x 256 ltac:(lia)) as Hx.
    pose proof (Z.div_mod (x / 256) 256 ltac:(lia)) as Hq.
    assert (Hqr : (-128 <= x / 256 < 128)%Z).
    { split; [apply Z.div_le_lower_bound | apply Z.div_lt_upper_bound]; lia. }
    destruct (Z.ltb_spec ((x / 256) mod 256) 128); lia.
Qed.

(** [_write_wav] never raises: whatever the samples, each one is
    packed into two bytes, least significant first, and reading the two
    bytes back as a signed 16-bit integer gives the clamped and
    truncated sample again. *)
Theorem write_wav_total (samples : list R) :
  _write_wav samples =
    Ok (map (fun s => ((int_sample s mod 256)%Z,
                       ((int_sample s / 256) mod 256)%Z)) samples) /\
  Forall (fun s =>
    let lo := (int_sample s mod 256)%Z in
    let hi := ((int_sample s / 256) mod 256)%Z in
    (0 <= lo < 256)%Z /\ (0 <= hi < 256)%Z /\
    (if (hi <? 128)%Z then lo + 256 * hi else lo + 256 * hi - 65536)%Z
    = int_sample s) samples.
Proof. apply write_wav_frames. Qed.

Lemma generate_cases (self : MusicGenerator) (c0 : commit)
  (cs : list commit) :
  ((1 <= buffer_length self (c0 :: cs))%Z ->
   exists frames, generate self (c0 :: cs) = Ok frames /\
     Z.of_nat (length frames) = buffer_length self (c0 :: cs)) /\
  ((buffer_length self (c0 :: cs) <= 0)%Z ->
   generate self (c0 :: cs) = Raise ValueError).
Proof.
  split; intros Hlen.
  - destruct (render_returns self c0 cs Hlen) as (buf & Hbuf & Hl & _).
    unfold generate, generate_samples. rewrite Hbuf. cbn [bind].
    destruct (write_wav_frames buf) as [Hw _]. rewrite Hw.
    eexists. split; [reflexivity |]. now rewrite length_map.
  - unfold generate, generate_samples.
    now rewrite render_raises.
Qed.



(** With the default generator, the one the command line builds, a
    non-empty list of commits always renders: [generate] returns
    between 4410 frames (0.1 s) and 2646000 frames (60 s), the floor of
    [min(60, N * 0.1) * 44100]. *)
Theorem default_generate_succeeds (c0 : commit) (cs : list commit) :
  exists frames,
    generate default_generator (c0 :: cs) = Ok frames /\
    Z.of_nat (length frames) =
      Zfloor (Rmin 60 (IZR (Z.of_nat (length (c0 :: cs))) * 0.1) * 44100) /\
    (4410 <= Z.of_nat (length frames) <= 2646000)%Z.
Proof.
  set (n := IZR (Z.of_nat (length (c0 :: cs)))).
  assert (Hn : 1 <= n).
  { unfold n. apply IZR_le. cbn [length]. lia. }
  assert (Hb : buffer_length default_generator (c0 :: cs)
               = Zfloor (Rmin 60 (n * 0.1) * 44100)).
  { unfold buffer_length, total_duration. cbn [default_generator
      duration_per_commit sample_rate]. fold n.
    rewrite min2_Rmin. replace 60.0 with 60 by lra.
    apply int_nonneg.
    assert (0 <= Rmin 60 (n * 0.1)) by (apply Rmin_glb; lra). lra. }
  assert (Hmin : 0.1 <= Rmin 60 (n * 0.1) <= 60).
  { split; [apply Rmin_glb; lra | apply Rmin_l]. }
  assert (Hr : (4410 <= Zfloor (Rmin 60 (n * 0.1) * 44100) <= 2646000)%Z).
  { split.
    - apply Zfloor_lub. lra.
    - pose proof (Zfloor_bound (Rmin 60 (n * 0.1) * 44100)) as [Hlo _].
      apply le_IZR. lra. }
  destruct (generate_cases default_generator c0 cs) as [Hok _].
  destruct Hok as (frames & Hf & Hl); [rewrite Hb; lia |].
  exists frames. split; [exact Hf |].
  rewrite Hl, Hb. split; [reflexivity | exact Hr].
Qed.

(** ** Pitch and silence *)

(** More additions give a higher pitch and more deletions a lower one:
    between two commits with non-negative counts, the one with at least
    as many additions and at most as many deletions has at least as
    high a frequency multiplier. *)
Theorem frequency_multiplier_monotone (c c' : commit) :
  (0 <= additions c)%Z -> (0 <= deletions c')%Z ->
  (additions c <= additions c')%Z -> (deletions c' <= deletions c)%Z ->
  exists m m',
    frequency_multiplier c = Ok m /\ frequency_multiplier c' = Ok m' /\
    m <= m'.
Proof.
  intros Ha Hd' Haa Hdd.
  destruct c as [ts a d], c' as [ts' a' d']. cbn in *.
  destruct (Z_lt_le_dec 0 (a + d)) as [Hact | Hact];
    destruct (Z_lt_le_dec 0 (a' + d')) as [Hact' | Hact'].
  - rewrite !frequency_multiplier_active by assumption. cbn.
    do 2 eexists. split; [reflexivity |]. split; [reflexivity |].
    assert (Hs : 0 < IZR (a + d)) by now apply IZR_lt.
    assert (Hs' : 0 < IZR (a' + d')) by now apply IZR_lt.
    assert (Hcross : IZR a * IZR (a' + d') <= IZR a' * IZR (a + d)).
    { rewrite <- !mult_IZR. apply IZR_le. nia. }
    assert (Hr : IZR a / IZR (a + d) <= IZR a' / IZR (a' + d')).
    { apply Rmult_le_reg_r with (IZR (a + d) * IZR (a' + d'));
        [apply Rmult_lt_0_compat; assumption |].
      field_simplify; lra. }
    lra.
  - rewrite frequency_multiplier_active by assumption.
    rewrite frequency_multiplier_idle by assumption. cbn.
    do 2 eexists. split; [reflexivity |]. split; [reflexivity |].
    assert (a = 0%Z) by lia. subst a.
    unfold Rdiv. rewrite Rmult_0_l. lra.
  - rewrite frequency_multiplier_idle by assumption.
    rewrite frequency_multiplier_active by assumption. cbn.
    do 2 eexists. split; [reflexivity |]. split; [reflexivity |].
    assert (d' = 0%Z) by lia. subst d'. rewrite Z.add_0_r in *.
    replace (IZR a' / IZR a') with 1; [lra |].
    field. apply not_0_IZR. lia.
  - rewrite !frequency_multiplier_idle by assumption.
    do 2 eexists. split; [reflexivity |]. split; [reflexivity |]. lra.
Qed.

Lemma frequency_multiplier_monotone_witness :
  exists m m',
    frequency_multiplier (mkCommit 1700000000 2 9) = Ok m /\
    frequency_multiplier (mkCommit 1700003600 5 4) = Ok m' /\
    m <= m'.
Proof.
  apply (frequency_multiplier_monotone (mkCommit 1700000000 2 9)
           (mkCommit 1700003600 5 4)); cbn; lia.
Defined.

(** A commit without changes is not heard, and a list of commits none
    of which has any change renders to silence: the buffer has its full
    length and every sample is 0. *)
Theorem idle_commits_silent (self : MusicGenerator) (c0 : commit)
  (cs : list commit) (sc : scalars) :
  derive self (c0 :: cs) = Ok sc ->
  (forall c audio, In c (c0 :: cs) -> activity c = 0%Z ->
     length audio = Z.to_nat (total_samples sc) ->
     mix_commit self sc audio c = Ok audio) /\
  (Forall (fun c => activity c = 0%Z) (c0 :: cs) ->
   (1 <= total_samples sc)%Z ->
   _generate_sonification self (c0 :: cs)
     = Ok (Py.replicate 0.0 (total_samples sc))).
Proof.
  intros Hsc.
  destruct (derive_sound self c0 cs sc Hsc) as (Hsound & Hplaced & Htot).
  split.
  - intros c audio Hin Hact Hlen.
    rewrite Forall_forall in Hplaced.
    rewrite (mix_commit_ok self sc Hsound audio c (Hplaced c Hin) Hlen).
    f_equal. apply add_from_zero. intros k _.
    now apply contribution_silent.
  - intros Hidle Hlen.
    unfold _generate_sonification. rewrite Hsc. cbn [bind].
    rewrite mix_silent; auto using replicate_length.
    cbn [bind]. apply normalize_noop.
    + unfold Py.replicate.
      destruct (Z.to_nat (total_samples sc)) eqn:E; [lia | discriminate].
    + eapply Forall_impl; [| apply replicate_zero].
      intros s ->. rewrite Rabs_R0. lra.
Qed.

Lemma idle_commits_silent_witness :
  _generate_sonification default_generator
    [mkCommit 1700000000 0 0; mkCommit 1700000000 0 0]
  = Ok (Py.replicate 0.0 8820).
Proof.
  assert (Hd : derive default_generator
    [mkCommit 1700000000 0 0; mkCommit 1700000000 0 0]
    = Ok (mkScalars 1700000000 1 8820 1)).
  { unfold derive, total_duration. cbn.
    assert (E : Py.int (Py.min2 60.0 (2 * 0.1) * 44100) = 8820%Z).
    { unfold Py.min2. destruct (Rlt_dec (2 * 0.1) 60.0); [| lra].
      apply int_between; [lia | lra]. }
    rewrite E. reflexivity. }
  apply (idle_commits_silent default_generator (mkCommit 1700000000 0 0)
           [mkCommit 1700000000 0 0] (mkScalars 1700000000 1 8820 1) Hd).
  - repeat constructor.
  - cbn. lia.
Defined.

(** ** Moving all commits in time *)

Lemma fold_min_shift (k : Z) (xs : list Z) (x : Z) :
  fold_left Z.min (map (fun y => y + k)%Z xs) (x + k)%Z
  = (fold_left Z.min xs x + k)%Z.
Proof.
  revert x. induction xs as [| y ys IH]; intros x; cbn [map fold_left].
  - reflexivity.
  - rewrite Z.add_min_distr_r. apply IH.
Qed.

Lemma fold_max_shift (k : Z) (xs : list Z) (x : Z) :
  fold_left Z.max (map (fun y => y + k)%Z xs) (x + k)%Z
  = (fold_left Z.max xs x + k)%Z.
Proof.
  revert x. induction xs as [| y ys IH]; intros x; cbn [map fold_left].
  - reflexivity.
  - rewrite Z.add_max_distr_r. apply IH.
Qed.

Lemma derive_delay (self : MusicGenerator) (k : Z) (c0 : commit)
  (cs : list commit) (sc : scalars) :
  derive self (c0 :: cs) = Ok sc ->
  derive self (map (delay k) (c0 :: cs)) =
  Ok (mkScalars (min_time sc + k) (time_range sc) (total_samples sc)
        (max_activity sc)).
Proof.
  intros Hsc. rewrite derive_fields in Hsc. injection Hsc as <-.
  cbn [map]. rewrite derive_fields.
  cbn [min_time time_range total_samples max_activity].
  assert (Hts : map timestamp (map (delay k) cs)
                = map (fun y => (y + k)%Z) (map timestamp cs))
    by (rewrite !map_map; reflexivity).
  assert (Hact : map activity (map (delay k) cs) = map activity cs)
    by (rewrite map_map; reflexivity).
  rewrite Hts, Hact.
  change (timestamp (delay k c0)) with (timestamp c0 + k)%Z.
  change (activity (delay k c0)) with (activity c0).
  rewrite fold_min_shift, fold_max_shift.
  assert (Hlen : buffer_length self (delay k c0 :: map (delay k) cs)
                 = buffer_length self (c0 :: cs)).
  { unfold buffer_length, total_duration. cbn [length].
    now rewrite length_map. }
  rewrite Hlen. do 2 f_equal. f_equal. lia.
Qed.

Lemma contribution_delay (self : MusicGenerator) (k : Z) (sc : scalars)
  (c : commit) (j : Z) :
  contribution self
    (mkScalars (min_time sc + k) (time_range sc) (total_samples sc)
       (max_activity sc)) (delay k c) j
  = contribution self sc c j.
Proof.
  unfold contribution, start_sample, t_norm, volume.
  cbn [min_time time_range total_samples max_activity].
  change (timestamp (delay k c)) with (timestamp c + k)%Z.
  change (activity (delay k c)) with (activity c).
  change (frequency_multiplier (delay k c)) with (frequency_multiplier c).
  replace (timestamp c + k - (min_time sc + k))%Z
    with (timestamp c - min_time sc)%Z by lia.
  reflexivity.
Qed.

Lemma total_contribution_delay (self : MusicGenerator) (k : Z)
  (sc : scalars) (l : list commit) (j : Z) :
  total_contribution self
    (mkScalars (min_time sc + k) (time_range sc) (total_samples sc)
       (max_activity sc)) (map (delay k) l) j
  = total_contribution self sc l j.
Proof.
  unfold total_contribution.
  induction l as [| c l IH]; [reflexivity |].
  cbn [map fold_right]. rewrite contribution_delay, IH. reflexivity.
Qed.

(** Only the spacing of the commits in time matters: moving every
    commit by the same number of seconds changes neither the rendered
    buffer nor the frames written. *)
Theorem render_time_shift (self : MusicGenerator) (k : Z)
  (commits : list commit) :
  _generate_sonification self (map (delay k) commits)
    = _generate_sonification self commits /\
  generate self (map (delay k) commits) = generate self commits.
Proof.
  assert (H : _generate_sonification self (map (delay k) commits)
              = _generate_sonification self commits).
  { destruct commits as [| c0 cs]; [reflexivity |].
    destruct (mixed_ok self c0 cs) as (sc & Hsc & _ & _ & _ & Hm).
    destruct (mixed_ok self (delay k c0) (map (delay k) cs))
      as (sc' & Hsc' & _ & _ & _ & Hm').
    change (delay k c0 :: map (delay k) cs)
      with (map (delay k) (c0 :: cs)) in Hsc', Hm'.
    rewrite (derive_delay self k c0 cs sc Hsc) in Hsc'.
    injection Hsc' as <-.
    cbn [map]. rewrite !sonification_unfold.
    change (delay k c0 :: map (delay k) cs) with (map (delay k) (c0 :: cs)).
    rewrite Hm, Hm'. cbn [total_samples]. do 2 f_equal.
    apply add_from_ext. intros j _.
    apply total_contribution_delay. }
  split; [exact H |].
  unfold generate, generate_samples.
  destruct commits as [| c0 cs]; [reflexivity |].
  cbn [map] in *. now rewrite H.
Qed.

(** ** Scaling all line counts *)

Lemma activity_amplify (k : Z) (c : commit) :
  activity (amplify k c) = (k * activity c)%Z.
Proof. unfold activity, amplify. cbn. lia. Qed.

Lemma fold_max_scale (k : Z) (xs : list Z) (x : Z) :
  (0 <= k)%Z ->
  fold_left Z.max (map (Z.mul k) xs) (k * x)%Z
  = (k * fold_left Z.max xs x)%Z.
Proof.
  intros Hk. revert x.
  induction xs as [| y ys IH]; intros x; cbn [map fold_left].
  - reflexivity.
  - rewrite Z.mul_max_distr_nonneg_l by assumption. apply IH.
Qed.

Lemma frequency_multiplier_amplify (k : Z) (c : commit) :
  (0 < k)%Z -> frequency_multiplier (amplify k c) = frequency_multiplier c.
Proof.
  intros Hk. unfold frequency_multiplier. rewrite activity_amplify.
  destruct (Z.gtb_spec (activity c) 0) as [Hact | Hact];
    destruct (Z.gtb_spec (k * activity c) 0) as [Hact' | Hact']; try nia.
  - rewrite !truediv_ok by (apply not_0_IZR; nia). cbn [bind]. f_equal.
    cbn [additions amplify]. rewrite !mult_IZR.
    assert (IZR k <> 0) by (apply not_0_IZR; lia).
    assert (IZR (activity c) <> 0) by (apply not_0_IZR; lia).
    f_equal. f_equal. field. split; assumption.
  - reflexivity.
Qed.

Lemma volume_amplify (k m : Z) (lo tr T : Z) (c : commit) :
  (0 < k)%Z -> (0 <= activity c <= m)%Z ->
  volume (mkScalars lo tr T (Py.or_Z (k * m) 1)) (amplify k c)
  = volume (mkScalars lo tr T (Py.or_Z m 1)) c.
Proof.
  intros Hk Hact. unfold volume. cbn [max_activity].
  rewrite activity_amplify. unfold Py.or_Z.
  destruct (Z.eqb_spec m 0) as [E | N];
    destruct (Z.eqb_spec (k * m) 0) as [E' | N']; try nia.
  - assert (activity c = 0%Z) by lia.
    replace (k * activity c)%Z with 0%Z by nia.
    replace (activity c) with 0%Z. reflexivity.
  - rewrite !truediv_ok by (apply not_0_IZR; assumption). cbn [bind].
    do 3 f_equal. rewrite !mult_IZR.
    assert (IZR k <> 0) by (apply not_0_IZR; lia).
    assert (IZR m <> 0) by (apply not_0_IZR; lia).
    field. split; assumption.
Qed.

Lemma derive_amplify (self : MusicGenerator) (k : Z) (c0 : commit)
  (cs : list commit) :
  (0 < k)%Z ->
  derive self (map (amplify k) (c0 :: cs)) =
  Ok (mkScalars
        (fold_left Z.min (map timestamp cs) (timestamp c0))
        (Py.or_Z (fold_left Z.max (map timestamp cs) (timestamp c0)
                  - fold_left Z.min (map timestamp cs) (timestamp c0)) 1)
        (buffer_length self (c0 :: cs))
        (Py.or_Z (k * fold_left Z.max (map activity cs) (activity c0)) 1)).
Proof.
  intros Hk. cbn [map]. rewrite derive_fields.
  assert (Hts : map timestamp (map (amplify k) cs) = map timestamp cs)
    by (rewrite map_map; reflexivity).
  assert (Hact : map activity (map (amplify k) cs)
                 = map (Z.mul k) (map activity cs)).
  { rewrite !map_map. apply map_ext. intros c. apply activity_amplify. }
  assert (Hlen : buffer_length self (amplify k c0 :: map (amplify k) cs)
                 = buffer_length self (c0 :: cs)).
  { unfold buffer_length, total_duration. cbn [length].
    now rewrite length_map. }
  rewrite Hts, Hact, Hlen, activity_amplify.
  rewrite fold_max_scale by lia. reflexivity.
Qed.

Lemma total_contribution_amplify (self : MusicGenerator) (k m : Z)
  (lo tr T : Z) (l : list commit) (j : Z) :
  (0 < k)%Z ->
  Forall (fun c => (0 <= activity c)%Z) l ->
  Forall (fun c => (activity c <= m)%Z) l ->
  total_contribution self (mkScalars lo tr T (Py.or_Z (k * m) 1))
    (map (amplify k) l) j
  = total_contribution self (mkScalars lo tr T (Py.or_Z m 1)) l j.
Proof.
  intros Hk Hnn Hub. unfold total_contribution.
  induction Hnn as [| c l Hc Hl IH]; [reflexivity |].
  apply Forall_cons_iff in Hub. destruct Hub as [Hcm Hlm].
  cbn [map fold_right]. rewrite (IH Hlm). f_equal.
  unfold contribution.
  rewrite frequency_multiplier_amplify by assumption.
  rewrite volume_amplify by first [assumption | split; assumption].
  reflexivity.
Qed.

(** Only the relative size of the commits matters: when no commit has
    a negative activity, multiplying the additions and deletions of
    every commit by the same positive factor changes neither the
    rendered buffer nor the frames written. *)
Theorem render_activity_scale (self : MusicGenerator) (k : Z)
  (commits : list commit) :
  (0 < k)%Z ->
  Forall (fun c => (0 <= activity c)%Z) commits ->
  _generate_sonification self (map (amplify k) commits)
    = _generate_sonification self commits /\
  generate self (map (amplify k) commits) = generate self commits.
Proof.
  intros Hk Hnn.
  assert (H : _generate_sonification self (map (amplify k) commits)
              = _generate_sonification self commits).
  { destruct commits as [| c0 cs]; [reflexivity |].
    destruct (mixed_ok self c0 cs) as (sc & Hsc & _ & _ & _ & Hm).
    destruct (mixed_ok self (amplify k c0) (map (amplify k) cs))
      as (sc' & Hsc' & _ & _ & _ & Hm').
    change (amplify k c0 :: map (amplify k) cs)
      with (map (amplify k) (c0 :: cs)) in Hsc', Hm'.
    rewrite derive_fields in Hsc. injection Hsc as <-.
    rewrite derive_amplify in Hsc' by assumption. injection Hsc' as <-.
    cbn [map]. rewrite !sonification_unfold.
    change (amplify k c0 :: map (amplify k) cs)
      with (map (amplify k) (c0 :: cs)).
    rewrite Hm, Hm'. cbn [total_samples bind]. f_equal.
    apply add_from_ext. intros j _.
    apply total_contribution_amplify; try assumption.
    destruct (fold_max_spec (map activity cs) (activity c0)) as [_ Hub].
    change (activity c0 :: map activity cs)
      with (map activity (c0 :: cs)) in Hub.
    now rewrite Forall_map in Hub. }
  split; [exact H |].
  unfold generate, generate_samples.
  destruct commits as [| c0 cs]; [reflexivity |].
  cbn [map] in *. now rewrite H.
Qed.

Lemma render_activity_scale_witness :
  _generate_sonification default_generator
    (map (amplify 10) [mkCommit 1700000000 12 3; mkCommit 1700003600 0 7])
  = _generate_sonification default_generator
    [mkCommit 1700000000 12 3; mkCommit 1700003600 0 7].
Proof.
  apply (render_activity_scale default_generator 10
           [mkCommit 1700000000 12 3; mkCommit 1700003600 0 7]).
  - lia.
  - repeat constructor; cbn; lia.
Defined.

(** * Colour helpers of the visualizer *)

Lemma blend_channel (a b : Z) (alpha : R) :
  channel a -> channel b -> 0 <= alpha <= 1 ->
  (Z.min a b <= Py.int (IZR a * alpha + IZR b * (1 - alpha)) <= Z.max a b)%Z.
Proof.
  unfold channel. intros Ha Hb Halpha.
  set (x := IZR a * alpha + IZR b * (1 - alpha)).
  assert (Ha0 : 0 <= IZR a) by (apply IZR_le; lia).
  assert (Hb0 : 0 <= IZR b) by (apply IZR_le; lia).
  assert (Hlo : IZR (Z.min a b) <= x).
  { unfold x. destruct (Z.min_spec a b) as [[Hlt ->] | [Hle ->]].
    - assert (IZR a <= IZR b) by (apply IZR_le; lia). nra.
    - assert (IZR b <= IZR a) by (apply IZR_le; lia). nra. }
  assert (Hhi : x <= IZR (Z.max a b)).
  { unfold x. destruct (Z.max_spec a b) as [[Hlt ->] | [Hle ->]].
    - assert (IZR a <= IZR b) by (apply IZR_le; lia). nra.
    - assert (IZR b <= IZR a) by (apply IZR_le; lia). nra. }
  assert (Hx0 : 0 <= x).
  { assert (0 <= IZR (Z.min a b)) by (apply IZR_le; lia). lra. }
  rewrite int_nonneg by assumption. split.
  - now apply Zfloor_lub.
  - pose proof (Zfloor_bound x) as [Hfl _]. apply le_IZR. lra.
Qed.

(** Blending two valid colours with a weight in [0, 1] gives a valid
    colour; no channel is above the larger of the two input channels or
    more than one below the smaller; weight 1 gives the first colour
    and weight 0 the second. *)
Theorem blend_color_between (color1 color2 : rgb) (alpha : R) :
  valid_rgb color1 -> valid_rgb color2 -> 0 <= alpha <= 1 ->
  valid_rgb (_blend_color color1 color2 alpha) /\
  (let '(r1, g1, b1) := color1 in
   let '(r2, g2, b2) := color2 in
   let '(r, g, b) := _blend_color color1 color2 alpha in
   (Z.min r1 r2 - 1 <= r <= Z.max r1 r2)%Z /\
   (Z.min g1 g2 - 1 <= g <= Z.max g1 g2)%Z /\
   (Z.min b1 b2 - 1 <= b <= Z.max b1 b2)%Z) /\
  _blend_color color1 color2 1 = color1 /\
  _blend_color color1 color2 0 = color2.
Proof.
  destruct color1 as [[r1 g1] b1], color2 as [[r2 g2] b2].
  intros (Hr1 & Hg1 & Hb1) (Hr2 & Hg2 & Hb2) Halpha.
  pose proof (blend_channel r1 r2 alpha Hr1 Hr2 Halpha) as Hr.
  pose proof (blend_channel g1 g2 alpha Hg1 Hg2 Halpha) as Hg.
  pose proof (blend_channel b1 b2 alpha Hb1 Hb2 Halpha) as Hb.
  unfold channel in *. cbn [_blend_color valid_rgb].
  split; [unfold channel; repeat split; lia |].
  split; [repeat split; lia |].
  split.
  - f_equal; [f_equal |];
      match goal with
      | |- Py.int ?e = ?z => replace e with (IZR z) by lra; apply int_IZR
      end.
  - f_equal; [f_equal |];
      match goal with
      | |- Py.int ?e = ?z => replace e with (IZR z) by lra; apply int_IZR
      end.
Qed.

Lemma blend_color_between_witness :
  valid_rgb (_blend_color (255, 100, 150)%Z (10, 10, 20)%Z (100 / 255)).
Proof.
  apply (blend_color_between (255, 100, 150)%Z (10, 10, 20)%Z (100 / 255)).
  - cbn. unfold channel. lia.
  - cbn. unfold channel. lia.
  - lra.
Defined.

Lemma int_channel (x : R) : 0 <= x <= 255 -> channel (Py.int x).
Proof. intros Hx. unfold channel. apply (int_bounds x 255). lra. Qed.

(** The heat colour of an intensity in [0, 1] is a valid colour; it is
    (0, 0, 128) at intensity 0 and (255, 255, 0) at intensity 1. *)
Theorem intensity_to_color_valid (intensity : R) :
  0 <= intensity <= 1 ->
  valid_rgb (_intensity_to_color intensity) /\
  _intensity_to_color 0 = (0, 0, 128)%Z /\
  _intensity_to_color 1 = (255, 255, 0)%Z.
Proof.
  intros Hi. split; [| split].
  - unfold _intensity_to_color.
    destruct (Rlt_dec intensity 0.3); [| destruct (Rlt_dec intensity 0.6)];
      cbn [valid_rgb]; repeat split;
      try (unfold channel; lia); apply int_channel; lra.
  - unfold _intensity_to_color. destruct (Rlt_dec 0 0.3); [| lra].
    f_equal. f_equal. replace (0 * 255 / 0.3) with (IZR 0) by lra.
    apply int_IZR.
  - unfold _intensity_to_color.
    destruct (Rlt_dec 1 0.3); [lra |]. destruct (Rlt_dec 1 0.6); [lra |].
    f_equal. replace (255 * (1 - (1 - 0.6) / 0.4)) with (IZR 0) by lra.
    apply int_IZR.
Qed.

Lemma intensity_to_color_valid_witness :
  valid_rgb (_intensity_to_color 0.45).
Proof.
  apply (intensity_to_color_valid 0.45). lra.
Defined.

(** The wave colour is a valid colour for every intensity in [0, 1] and
    every wave index, negative ones included: the index is reduced
    modulo 3 and never leaves the table of base colours. *)
Theorem wave_color_valid (intensity : R) (wave_index : Z) :
  0 <= intensity <= 1 ->
  valid_rgb (_get_wave_color intensity wave_index) /\
  In (nth (Z.to_nat (wave_index mod 3)) base_colors (0, 0, 0)%Z) base_colors.
Proof.
  intros Hi. unfold _get_wave_color. cbn [base_colors length Z.of_nat].
  change (Z.pos (Pos.of_succ_nat 2)) with 3%Z.
  pose proof (Z.mod_pos_bound wave_index 3 ltac:(lia)) as Hm.
  assert (Hcase : Z.to_nat (wave_index mod 3) = 0%nat \/
                  Z.to_nat (wave_index mod 3) = 1%nat \/
                  Z.to_nat (wave_index mod 3) = 2%nat) by lia.
  destruct Hcase as [-> | [-> | ->]]; cbn [nth valid_rgb base_colors In];
    (split; [repeat split; apply int_channel; lra | auto]).
Qed.

Lemma wave_color_valid_witness :
  valid_rgb (_get_wave_color 0.5 (-1)).
Proof.
  apply (wave_color_valid 0.5 (-1)). lra.
Defined.
